(** * Product API (server.js): a shallow embedding and its properties

    The server keeps an in-memory array of product objects and answers
    HTTP requests through an Express middleware chain.  This file embeds
    the chain as pure functions over an explicit catalog, and proves the
    properties of the handlers.

    Conventions of the embedding.
    - A JavaScript string is a [string]; each character stands for one
      code unit in the range 0..255.
    - A JavaScript number is a double: here an integer, an infinity or
      NaN ([number]).  The integers a computation yields are rounded as
      doubles are: exact below 2^53, to 53 significant bits with ties to
      even above, and to an infinity from 2^1024 - 2^970 on.  Negative
      zero is not told from zero: [slice] and JSON read both alike.  A
      fraction in a JSON body is not represented: the program only tests
      such a number for truthiness, where it behaves as any integer other
      than zero.
    - A JavaScript object is a finite map from property names to values
      ([gmap string value]); a missing property reads as [VUndefined].
    - The module-level [products] array is passed in and returned.
    - [uuidv4()] is an input of the request: the string it would return.
    - Console output (the logger, [console.error]) is not observable in a
      response and is left out. *)

From Stdlib Require Import ZArith Ascii String DecimalString DecimalPos.
From stdpp Require Import gmap strings list fin_maps.

Set Warnings "-register-all".
Local Open Scope string_scope.
Local Open Scope Z_scope.

(** ** Strings *)

Module JsString.

Definition code (c : ascii) : N := N_of_ascii c.

(** [String.prototype.toLowerCase] on one code unit: A-Z and the
    upper-case letters of the range 192..222 (without the multiplication
    sign, 215) move up by 32. *)
Definition lower_char (c : ascii) : ascii :=
  let n := code c in
  if ((65 <=? n) && (n <=? 90))%N
     || ((192 <=? n) && (n <=? 222) && negb (n =? 215))%N
  then ascii_of_N (n + 32) else c.

Fixpoint toLowerCase (s : string) : string :=
  match s with
  | EmptyString => EmptyString
  | String c s' => String (lower_char c) (toLowerCase s')
  end.

(** [s.startsWith(t)]. *)
Fixpoint startsWith (s t : string) {struct t} : bool :=
  match t, s with
  | EmptyString, _ => true
  | String _ _, EmptyString => false
  | String b t', String a s' => if Ascii.eqb a b then startsWith s' t' else false
  end.

(** [s.includes(t)]: [t] occurs at some position of [s]. *)
Fixpoint includes (s t : string) : bool :=
  startsWith s t ||
  match s with
  | EmptyString => false
  | String _ s' => includes s' t
  end.

(** White space and line terminators that [parseInt] skips. *)
Definition is_white_space (c : ascii) : bool :=
  let n := code c in
  ((9 <=? n) && (n <=? 13) || (n =? 32) || (n =? 160))%N.

Fixpoint trimStart (s : string) : string :=
  match s with
  | String c s' => if is_white_space c then trimStart s' else s
  | EmptyString => EmptyString
  end.

(** The value of a digit in the given radix, if it is one. *)
Definition digit_value (radix : Z) (c : ascii) : option Z :=
  let n := Z.of_N (code c) in
  let d := if (48 <=? n) && (n <=? 57) then Some (n - 48)
           else if (97 <=? n) && (n <=? 122) then Some (n - 87)
           else if (65 <=? n) && (n <=? 90) then Some (n - 55)
           else None in
  match d with
  | Some v => if v <? radix then Some v else None
  | None => None
  end.

(** The longest prefix of digits, read from the left; [None] when the
    prefix is empty. *)
Fixpoint read_digits (radix : Z) (acc : option Z) (s : string) : option Z :=
  match s with
  | EmptyString => acc
  | String c s' =>
      match digit_value radix c with
      | Some d => read_digits radix (Some (default 0 acc * radix + d)) s'
      | None => acc
      end
  end.

End JsString.

(** ** Numbers *)

Inductive number := NaN | Num (z : Z) | Inf (negative : bool).

Global Instance number_eq_dec : EqDecision number.
Proof. solve_decision. Defined.

Module JsNumber.

(** A magnitude rounded to 53 significant bits, ties to even.  Above
    2^53 the unit in the last place is 2^(log2 a - 52). *)
Definition round_magnitude (a : Z) : Z :=
  if a <? 2 ^ 53 then a
  else
    let ulp := 2 ^ (Z.log2 a - 52) in
    let q := a / ulp in
    let r := a mod ulp in
    if (ulp <? 2 * r) || ((ulp =? 2 * r) && Z.odd q)
    then (q + 1) * ulp else q * ulp.

(** The double nearest to an integer: an integer, or an infinity when the
    rounded magnitude reaches 2^1024. *)
Definition round (z : Z) : number :=
  let m := round_magnitude (Z.abs z) in
  if 2 ^ 1024 <=? m then Inf (z <? 0)
  else Num (if z <? 0 then - m else m).

(** [a - b], [a * b] and [a + b]. *)
Definition sub (a b : number) : number :=
  match a, b with
  | Num x, Num y => round (x - y)
  | Inf n, Num _ => Inf n
  | Num _, Inf n => Inf (negb n)
  | Inf n, Inf m => if Bool.eqb n m then NaN else Inf n
  | _, _ => NaN
  end.
Definition mul (a b : number) : number :=
  match a, b with
  | Num x, Num y => round (x * y)
  | Inf n, Num y | Num y, Inf n => if y =? 0 then NaN else Inf (xorb n (y <? 0))
  | Inf n, Inf m => Inf (xorb n m)
  | _, _ => NaN
  end.
Definition add (a b : number) : number :=
  match a, b with
  | Num x, Num y => round (x + y)
  | Inf n, Num _ | Num _, Inf n => Inf n
  | Inf n, Inf m => if Bool.eqb n m then Inf n else NaN
  | _, _ => NaN
  end.

(** [parseInt(s)] with no radix argument: the integer that the digits
    denote, rounded to the nearest double. *)
Definition parseInt (input : string) : number :=
  let s := JsString.trimStart input in
  let '(negative, s) :=
    match s with
    | String "-" s' => (true, s')
    | String "+" s' => (false, s')
    | _ => (false, s)
    end in
  let '(radix, s) :=
    match s with
    | String "0" (String "x" s') => (16, s')
    | String "0" (String "X" s') => (16, s')
    | _ => (10, s)
    end in
  match JsString.read_digits radix None s with
  | None => NaN
  | Some v => round (if negative then - v else v)
  end.

(** ToString of a number, for property keys and parameter defaults: the
    decimal digits, which is what it gives for an integer of magnitude
    below 10^21. *)
Definition to_string (n : number) : string :=
  match n with
  | NaN => "NaN"
  | Num z => NilZero.string_of_int (Z.to_int z)
  | Inf false => "Infinity"
  | Inf true => "-Infinity"
  end.

End JsNumber.

(** ** Arrays *)

Module JsArray.

(** A relative index of [slice], clamped to [0, len]. *)
Definition clamp_index (len : nat) (rel : Z) : nat :=
  if rel <? 0 then Z.to_nat (Z.max (Z.of_nat len + rel) 0)
  else Z.to_nat (Z.min rel (Z.of_nat len)).

(** The index [slice] makes of an argument: ToIntegerOrInfinity, then the
    clamp. *)
Definition relative_index (len : nat) (n : number) : nat :=
  match n with
  | NaN => clamp_index len 0
  | Num z => clamp_index len z
  | Inf true => 0%nat
  | Inf false => len
  end.

(** [l.slice(start, end)]. *)
Definition slice {A} (l : list A) (start end_ : number) : list A :=
  let k := relative_index (length l) start in
  let final := relative_index (length l) end_ in
  take (final - k) (drop k l).

(** [l.findIndex(f)]; [None] stands for -1. *)
Fixpoint findIndex {A} (f : A → bool) (l : list A) : option nat :=
  match l with
  | [] => None
  | x :: l' => if f x then Some 0%nat else S <$> findIndex f l'
  end.

(** [l.find(f)]; [None] stands for undefined. *)
Fixpoint find {A} (f : A → bool) (l : list A) : option A :=
  match l with
  | [] => None
  | x :: l' => if f x then Some x else find f l'
  end.

(** [l.splice(index, 1)]: the removed elements and the array left. *)
Definition splice1 {A} (l : list A) (index : nat) : list A * list A :=
  (take 1 (drop index l), (take index l ++ drop (S index) l)%list).

End JsArray.

(** ** Values *)

(** The values of a parsed JSON body and of the stored products.
    [VUndefined] is the value of a property written from a variable that
    was never bound ([description] of a product created without one). *)
Inductive value :=
  | VUndefined
  | VNull
  | VBool (b : bool)
  | VNum (n : number)
  | VStr (s : string)
  | VArr (elements : list value)
  | VObj (properties : gmap string value).

Abbreviation obj := (gmap string value).

(** [o.k], for an object [o]. *)
Definition get (o : obj) (k : string) : value := default VUndefined (o !! k).

(** ToBoolean. *)
Definition truthy (v : value) : bool :=
  match v with
  | VUndefined | VNull => false
  | VBool b => b
  | VNum NaN => false
  | VNum (Num z) => negb (z =? 0)
  | VNum (Inf _) => true
  | VStr s => negb (String.eqb s "")
  | VArr _ | VObj _ => true
  end.

(** [v ?? d]. *)
Definition nullish_or (v d : value) : value :=
  match v with
  | VUndefined | VNull => d
  | _ => v
  end.

(** [{ ...a, ...b }]: the properties of [b] win. *)
Definition spread (a b : obj) : obj := b ∪ a.

(** A value of [req.query]: the query-string parser yields strings, arrays
    ([?k=a&k=b]) and objects ([?k[x]=a]).  An object is taken to inherit
    [toString] from Object.prototype, as it does unless the query itself
    names that property ([?k[toString]=a]). *)
Inductive qvalue :=
  | QStr (s : string)
  | QArr (elements : list qvalue)
  | QObj (properties : list (string * qvalue)).

(** ToString of a query value: an array joins its elements with commas. *)
Fixpoint qvalue_to_string (q : qvalue) : string :=
  match q with
  | QStr s => s
  | QArr l =>
      (fix join (l : list qvalue) : string :=
         match l with
         | [] => ""
         | [x] => qvalue_to_string x
         | x :: l' => qvalue_to_string x ++ "," ++ join l'
         end) l
  | QObj _ => "[object Object]"
  end.

(** ToBoolean of a query parameter; [None] is undefined. *)
Definition given (q : option qvalue) : bool :=
  match q with
  | None => false
  | Some (QStr s) => negb (String.eqb s "")
  | Some (QArr _) | Some (QObj _) => true
  end.

(** ** Errors *)

(** An Error object as the global error handler reads it. *)
Record js_error := JsError {
  err_name : string;
  err_message : string;
  err_statusCode : option nat
}.

Definition NotFoundError (message : string) : js_error :=
  JsError "NotFoundError" message (Some 404%nat).

Definition ValidationError (message : string) : js_error :=
  JsError "ValidationError" message (Some 400%nat).

(** The TypeError the engine throws; it has no [statusCode]. *)
Definition TypeError (message : string) : js_error :=
  JsError "TypeError" message None.

(** A computation that returns or throws. *)
Inductive outcome (A : Type) :=
  | Ok (a : A)
  | Throw (e : js_error).
Arguments Ok {A} a.
Arguments Throw {A} e.

Global Instance outcome_ret : MRet outcome := λ A a, Ok a.
Global Instance outcome_bind : MBind outcome := λ A B k m,
  match m with
  | Ok a => k a
  | Throw e => Throw e
  end.

(** [l.filter(f)] for a callback that may throw: elements are visited in
    order and the first exception ends the visit. *)
Fixpoint filter_throwing {A} (f : A → outcome bool) (l : list A) : outcome (list A) :=
  match l with
  | [] => Ok []
  | x :: l' =>
      b ← f x;
      rest ← filter_throwing f l';
      Ok (if b : bool then x :: rest else rest)
  end.

(** [v.toLowerCase()] for a stored value [v] written [expr] in the source.
    The messages are those of V8. *)
Definition value_toLowerCase (expr : string) (v : value) : outcome string :=
  match v with
  | VStr s => Ok (JsString.toLowerCase s)
  | VUndefined =>
      Throw (TypeError "Cannot read properties of undefined (reading 'toLowerCase')")
  | VNull =>
      Throw (TypeError "Cannot read properties of null (reading 'toLowerCase')")
  | _ => Throw (TypeError (expr ++ ".toLowerCase is not a function"))
  end.

(** [q.toLowerCase()] for a query parameter that passed the truthiness
    test. *)
Definition qvalue_toLowerCase (expr : string) (q : qvalue) : outcome string :=
  match q with
  | QStr s => Ok (JsString.toLowerCase s)
  | _ => Throw (TypeError (expr ++ ".toLowerCase is not a function"))
  end.

(** ToString of a stored value, as a property key needs it.  An object
    prints as [[object Object]]; an array joins its elements, with null
    and undefined printing as the empty string. *)
Fixpoint value_to_string (v : value) : string :=
  match v with
  | VUndefined => "undefined"
  | VNull => "null"
  | VBool true => "true"
  | VBool false => "false"
  | VNum n => JsNumber.to_string n
  | VStr s => s
  | VArr l =>
      (fix join (l : list value) : string :=
         let item (x : value) : string :=
           match x with
           | VUndefined | VNull => ""
           | _ => value_to_string x
           end in
         match l with
         | [] => ""
         | [x] => item x
         | x :: l' => item x ++ "," ++ join l'
         end) l
  | VObj _ => "[object Object]"
  end.

(** ** The catalog *)

(** The in-memory product data the module starts with. *)
Definition initial_products : list obj := [
  {[ "id" := VStr "1";
     "name" := VStr "Laptop";
     "description" := VStr "High-performance laptop with 16GB RAM";
     "price" := VNum (Num 1200);
     "category" := VStr "electronics";
     "inStock" := VBool true ]};
  {[ "id" := VStr "2";
     "name" := VStr "Smartphone";
     "description" := VStr "Latest model with 128GB storage";
     "price" := VNum (Num 800);
     "category" := VStr "electronics";
     "inStock" := VBool true ]};
  {[ "id" := VStr "3";
     "name" := VStr "Coffee Maker";
     "description" := VStr "Programmable coffee maker with timer";
     "price" := VNum (Num 50);
     "category" := VStr "kitchen";
     "inStock" := VBool false ]}
].

(** ** Requests and responses *)

(** The verbs for which the module registers a route; HEAD, which the
    router serves with the GET routes; PATCH and OPTIONS, for which no
    route is registered and which stand for every other verb.  (The
    automatic OPTIONS reply of the router is never sent: the 404
    middleware and the error handler answer first.) *)
Inductive method := GET | POST | PUT | DELETE | PATCH | HEAD | OPTIONS.

Global Instance method_eq_dec : EqDecision method.
Proof. solve_decision. Defined.

(** The four parameters the list handler destructures from [req.query]. *)
Record query := Query {
  q_category : option qvalue;
  q_search : option qvalue;
  q_page : option qvalue;
  q_limit : option qvalue
}.

(** What the JSON body parser leaves in [req.body], or the error it passes
    on.  The parser accepts an object or an array at top level; an array
    is given by its index properties.  A request without a JSON body has
    the empty object where a parser fills it in (body-parser 1, which is
    also the parser of Express 4) and is [Absent], [req.body] being left
    undefined, where none does (body-parser 2, the parser of Express 5). *)
Inductive parsed_body :=
  | Parsed (body : obj)
  | Absent
  | Malformed (e : js_error).

(** [req_path] holds the segments of the path, split at each slash,
    without the trailing slash the router ignores: the segments as they
    were sent, which is how the router compares them with the literals of
    a route, an empty segment included; a segment in the place of a route
    parameter is given as [decodeURIComponent] returns it.  A path whose
    parameter cannot be decoded, for which the router passes on a
    URIError instead of calling a handler, is no value of this type.
    [req_api_key] is [req.headers['x-api-key']]. *)
Record request := Request {
  req_method : method;
  req_path : list string;
  req_api_key : option string;
  req_query : query;
  req_body : parsed_body
}.

(** What a handler sends: a text, or the value it hands to [res.json],
    before serialization.  (Of the answer to a HEAD request the client
    receives the status and the headers only.) *)
Inductive payload :=
  | Text (s : string)
  | Json (v : value).

Record response := Response {
  status : nat;
  body : payload
}.

(** [res.json(v)] and [res.status(code).json(v)]. *)
Definition json (code : nat) (v : value) : response := Response code (Json v).

(** ** Route handlers *)

(** [p.category.toLowerCase() === category.toLowerCase()]. *)
Definition category_matches (category : qvalue) (p : obj) : outcome bool :=
  a ← value_toLowerCase "p.category" (get p "category");
  b ← qvalue_toLowerCase "category" category;
  Ok (String.eqb a b).

(** [p.name.toLowerCase().includes(search.toLowerCase())]. *)
Definition name_includes (search : qvalue) (p : obj) : outcome bool :=
  a ← value_toLowerCase "p.name" (get p "name");
  b ← qvalue_toLowerCase "search" search;
  Ok (JsString.includes a b).

(** [if (param) filtered = filtered.filter(f)]. *)
Definition filter_if_given (param : option qvalue) (f : qvalue → obj → outcome bool)
    (filtered : list obj) : outcome (list obj) :=
  match param with
  | Some q => if given param then filter_throwing (f q) filtered else Ok filtered
  | None => Ok filtered
  end.

(** The filtering part of the list handler. *)
Definition filter_products (products : list obj) (q : query) : outcome (list obj) :=
  filtered ← filter_if_given (q_category q) category_matches products;
  filter_if_given (q_search q) name_includes filtered.

(** [parseInt] of a query parameter with a numeric default. *)
Definition parse_param (param : option qvalue) (dflt : number) : number :=
  JsNumber.parseInt
    (match param with
     | Some v => qvalue_to_string v
     | None => JsNumber.to_string dflt
     end).

Definition page_of (q : query) : number := parse_param (q_page q) (Num 1).
Definition limit_of (q : query) : number := parse_param (q_limit q) (Num 5).

(** [filtered.slice(startIndex, endIndex)]. *)
Definition paginate (filtered : list obj) (page limit : number) : list obj :=
  let startIndex := JsNumber.mul (JsNumber.sub page (Num 1)) limit in
  let endIndex := JsNumber.add startIndex limit in
  JsArray.slice filtered startIndex endIndex.

(** The object the list handler sends. *)
Definition page_result (page : number) (total : nat) (results : list obj) : value :=
  VObj {[ "page" := VNum page;
          "total" := VNum (Num (Z.of_nat total));
          "results" := VArr (VObj <$> results) ]}.

(** GET /api/products. *)
Definition list_products (products : list obj) (q : query) : outcome response :=
  let page := page_of q in
  let limit := limit_of q in
  filtered ← filter_products products q;
  let paginated := paginate filtered page limit in
  Ok (json 200 (page_result page (length filtered) paginated)).

(** [p.id === req.params.id]; a parameter the route does not bind is
    undefined. *)
Definition id_is (id : option string) (p : obj) : bool :=
  match id, get p "id" with
  | Some s, VStr t => String.eqb t s
  | None, VUndefined => true
  | _, _ => false
  end.

(** GET /api/products/:id. *)
Definition get_product (products : list obj) (id : option string) : outcome response :=
  match JsArray.find (id_is id) products with
  | None => Throw (NotFoundError "Product not found")
  | Some product => Ok (json 200 (VObj product))
  end.

(** POST /api/products. *)
Definition create_product (products : list obj) (uuid : string) (body : obj)
    : outcome response * list obj :=
  let name := get body "name" in
  let description := get body "description" in
  let price := get body "price" in
  let category := get body "category" in
  let inStock := get body "inStock" in
  if negb (truthy name) || negb (truthy price) || negb (truthy category) then
    (Throw (ValidationError "Name, price, and category are required"), products)
  else
    let newProduct : obj :=
      {[ "id" := VStr uuid;
         "name" := name;
         "description" := description;
         "price" := price;
         "category" := category;
         "inStock" := nullish_or inStock (VBool true) ]} in
    (Ok (json 201 (VObj newProduct)), (products ++ [newProduct])%list).

(** PUT /api/products/:id.  [findIndex] answers an index of the array, so
    the assignment never extends it. *)
Definition update_product (products : list obj) (id : option string) (body : obj)
    : outcome response * list obj :=
  match JsArray.findIndex (id_is id) products with
  | None => (Throw (NotFoundError "Product not found"), products)
  | Some index =>
      let merged := spread (default ∅ (products !! index)) body in
      (Ok (json 200 (VObj merged)), <[index := merged]> products)
  end.

(** DELETE /api/products/:id. *)
Definition delete_product (products : list obj) (id : option string)
    : outcome response * list obj :=
  match JsArray.findIndex (id_is id) products with
  | None => (Throw (NotFoundError "Product not found"), products)
  | Some index =>
      let '(deleted, products') := JsArray.splice1 products index in
      (Ok (json 200 (VObj {[ "message" := VStr "Product deleted";
                             "product" := default VUndefined (VObj <$> deleted !! 0%nat) ]})),
       products')
  end.

(** [stats[cat] = (stats[cat] || 0) + 1].  The accumulator starts empty
    and only ever holds the counts written here; a count is at most the
    length of the array, below 2^32, where the addition is exact.
    Category names that are members of Object.prototype are outside this
    definition. *)
Definition count_category (stats : obj) (p : obj) : obj :=
  let cat := value_to_string (get p "category") in
  match stats !! cat with
  | Some (VNum (Num n)) => <[cat := VNum (Num (n + 1))]> stats
  | _ => <[cat := VNum (Num 1)]> stats
  end.

(** GET /api/products/stats. *)
Definition product_stats (products : list obj) : outcome response :=
  Ok (json 200 (VObj (foldl count_category ∅ products))).

(** ** Routing *)

(** A segment of a route path: a literal, or a named parameter. *)
Inductive segment :=
  | Lit (s : string)
  | Param (name : string).

Inductive endpoint :=
  | Root
  | ListProducts
  | GetProduct
  | CreateProduct
  | UpdateProduct
  | DeleteProduct
  | ProductStats.

Global Instance endpoint_eq_dec : EqDecision endpoint.
Proof. solve_decision. Defined.

Record route := Route {
  route_method : method;
  route_path : list segment;
  route_endpoint : endpoint
}.

(** The routes, in the order the module registers them. *)
Definition routes : list route := [
  Route GET [] Root;
  Route GET [Lit "api"; Lit "products"] ListProducts;
  Route GET [Lit "api"; Lit "products"; Param "id"] GetProduct;
  Route POST [Lit "api"; Lit "products"] CreateProduct;
  Route PUT [Lit "api"; Lit "products"; Param "id"] UpdateProduct;
  Route DELETE [Lit "api"; Lit "products"; Param "id"] DeleteProduct;
  Route GET [Lit "api"; Lit "products"; Lit "stats"] ProductStats
].

(** Matching of a path against a route path: literals compare without
    regard to case, a parameter takes one non-empty segment.  The result
    is [req.params]. *)
Fixpoint match_path (pattern : list segment) (path : list string)
    (params : gmap string string) : option (gmap string string) :=
  match pattern, path with
  | [], [] => Some params
  | Lit s :: pattern', x :: path' =>
      if String.eqb (JsString.toLowerCase x) s
      then match_path pattern' path' params else None
  | Param name :: pattern', x :: path' =>
      if String.eqb x "" then None
      else match_path pattern' path' (<[name := x]> params)
  | _, _ => None
  end.

(** The verb under which the router looks a request up: no HEAD route is
    registered, so a HEAD request is served by the GET routes. *)
Definition routed_as (m : method) : method :=
  match m with
  | HEAD => GET
  | _ => m
  end.

(** The first registered route that takes the request. *)
Fixpoint find_route (rs : list route) (m : method) (path : list string)
    : option (endpoint * gmap string string) :=
  match rs with
  | [] => None
  | r :: rs' =>
      if decide (route_method r = routed_as m) then
        match match_path (route_path r) path ∅ with
        | Some params => Some (route_endpoint r, params)
        | None => find_route rs' m path
        end
      else find_route rs' m path
  end.

(** ** The middleware chain *)

(** The middleware in front of the routes: the body parser, then the
    API-key check; then the router, with the 404 handler behind it.  The
    result is the route handler the chain reaches with its parameters, or
    the error passed to [next] before any handler ran. *)
Definition dispatch (req : request) : js_error + endpoint * gmap string string :=
  match req_body req with
  | Malformed e => inl e
  | Parsed _ | Absent =>
      if decide (req_api_key req = Some "mysecurekey") then
        match find_route routes (req_method req) (req_path req) with
        | Some target => inr target
        | None => inl (NotFoundError "Route not found")
        end
      else inl (ValidationError "Forbidden. Invalid API Key.")
  end.

(** The properties a handler reads from [req.body]; spreading an
    undefined body adds none. *)
Definition body_of (req : request) : obj :=
  match req_body req with
  | Parsed b => b
  | Absent | Malformed _ => ∅
  end.

(** The handler of an endpoint: what it sends or throws, and the catalog
    it leaves. *)
Definition run (e : endpoint) (params : gmap string string)
    (products : list obj) (uuid : string) (req : request)
    : outcome response * list obj :=
  match e with
  | Root => (Ok (Response 200 (Text "Welcome to the Product API! Visit /api/products")),
             products)
  | ListProducts => (list_products products (req_query req), products)
  | GetProduct => (get_product products (params !! "id"), products)
  | CreateProduct =>
      match req_body req with
      | Absent =>
          (* destructuring an undefined [req.body]; the message is V8's *)
          (Throw (TypeError
             "Cannot destructure property 'name' of 'req.body' as it is undefined."),
           products)
      | _ => create_product products uuid (body_of req)
      end
  | UpdateProduct => update_product products (params !! "id") (body_of req)
  | DeleteProduct => delete_product products (params !! "id")
  | ProductStats => (product_stats products, products)
  end.

(** The global error handler: [res.status(err.statusCode || 500)]. *)
Definition error_handler (err : js_error) : response :=
  json (match err_statusCode err with
        | Some (S n) => S n
        | _ => 500%nat
        end)
       (VObj {[ "error" := VStr (err_name err);
                "message" := VStr (err_message err) ]}).

(** One request against the catalog: the response and the catalog after
    it.  An exception thrown by a handler reaches the error handler like
    an error passed to [next]. *)
Definition handle (products : list obj) (uuid : string) (req : request)
    : response * list obj :=
  match dispatch req with
  | inl err => (error_handler err, products)
  | inr (e, params) =>
      let '(result, products') := run e params products uuid req in
      (match result with
       | Ok res => res
       | Throw err => error_handler err
       end, products')
  end.

(** The catalogs the server can hold: the initial one, and the one left by
    any request on a reachable catalog. *)
Inductive reachable : list obj → Prop :=
  | reachable_initial : reachable initial_products
  | reachable_handle products uuid req :
      reachable products → reachable (handle products uuid req).2.

(** The ids of the catalog, in order. *)
Definition ids (products : list obj) : list value := (λ p, get p "id") <$> products.

(** ** Sample requests *)

Definition no_query : query := Query None None None None.

(** A request that carries the API key and a well-formed body. *)
Definition authorized (m : method) (path : list string) (q : query) (b : obj) : request :=
  Request m path (Some "mysecurekey") q (Parsed b).

(** GET /api/products/stats. *)
Definition stats_request : request :=
  authorized GET ["api"; "products"; "stats"] no_query ∅.

(** DELETE /api/products/42. *)
Definition delete_42_request : request :=
  authorized DELETE ["api"; "products"; "42"] no_query ∅.

(** POST /api/products without the header and with a truncated JSON body;
    the body parser passes on a SyntaxError with status code 400. *)
Definition truncated_body_request : request :=
  Request POST ["api"; "products"] None no_query
    (Malformed (JsError "SyntaxError" "Unexpected end of JSON input" (Some 400%nat))).


(** The body of an error response. *)
Definition error_body (name message : string) : value :=
  VObj {[ "error" := VStr name; "message" := VStr message ]}.

(** GET /api/products?category=electronics&page=1&limit=1. *)
Definition electronics_request : request :=
  authorized GET ["api"; "products"]
    (Query (Some (QStr "electronics")) None (Some (QStr "1")) (Some (QStr "1"))) ∅.

(** GET /api/products?category=Electronics&search=PHONE. *)
Definition phone_request : request :=
  authorized GET ["api"; "products"]
    (Query (Some (QStr "Electronics")) (Some (QStr "PHONE")) None None) ∅.

(** GET /api/products?category=a&category=b: the parser collects the two
    values in an array. *)
Definition repeated_category_request : request :=
  authorized GET ["api"; "products"]
    (Query (Some (QArr [QStr "a"; QStr "b"])) None None None) ∅.

(** GET /api/products?category=&search=top&page=x&limit=-3. *)
Definition odd_numbers_request : request :=
  authorized GET ["api"; "products"]
    (Query (Some (QStr "")) (Some (QStr "top")) (Some (QStr "x")) (Some (QStr "-3"))) ∅.

(** The request with another query. *)
Definition with_query (req : request) (q : query) : request :=
  Request (req_method req) (req_path req) (req_api_key req) q (req_body req).

(** The [error] and [message] fields of a JSON response. *)
Definition field_of (res : response) (k : string) : value :=
  match body res with
  | Json (VObj m) => get m k
  | _ => VUndefined
  end.

(** POST /api/products {"name":"Desk","price":300,"category":"furniture"}. *)
Definition desk_request : request :=
  authorized POST ["api"; "products"] no_query
    {[ "name" := VStr "Desk"; "price" := VNum (Num 300);
       "category" := VStr "furniture" ]}.


(** POST /api/products with the key and no JSON body, where the parsers
    leave [req.body] undefined. *)
Definition bodiless_post_request : request :=
  Request POST ["api"; "products"] (Some "mysecurekey") no_query Absent.

(** HEAD /API/Products/7 with the key and no body. *)
Definition head_request : request :=
  Request HEAD ["API"; "Products"; "7"] (Some "mysecurekey") no_query Absent.

(** GET /api//products with the key. *)
Definition empty_segment_request : request :=
  authorized GET ["api"; ""; "products"] no_query ∅.

(** PUT /api/products/3 {"price":60,"color":"red"}. *)
Definition reprice_request : request :=
  authorized PUT ["api"; "products"; "3"] no_query
    {[ "price" := VNum (Num 60); "color" := VStr "red" ]}.

(** PUT /api/products/1 {"id":"2"}. *)
Definition overwrite_id_request : request :=
  authorized PUT ["api"; "products"; "1"] no_query {[ "id" := VStr "2" ]}.

(** ** Specification of the handlers' conditions *)

(** A field that the body lacks or holds with a falsy value. *)
Definition missing_or_falsy (b : obj) (k : string) : Prop :=
  b !! k = None ∨ ∃ v, b !! k = Some v ∧ truthy v = false.

(** A response with the given status and error name. *)
Definition is_error (res : response) (code : nat) (name : string) : Prop :=
  status res = code ∧ field_of res "error" = VStr name.

(** A request that cannot disturb the ids of the catalog: its body has no
    [id] property, and the id generated for it is not in use. *)
Definition id_safe (products : list obj) (uuid : string) (req : request) : Prop :=
  body_of req !! "id" = None ∧ VStr uuid ∉ ids products.

(** A sequence of requests, each with the id generated for it, run from a
    catalog. *)
Fixpoint handle_all (products : list obj) (reqs : list (string * request)) : list obj :=
  match reqs with
  | [] => products
  | (uuid, req) :: rest => handle_all (handle products uuid req).2 rest
  end.

(** Every request of the sequence is safe for the ids of the catalog it
    meets. *)
Fixpoint all_id_safe (products : list obj) (reqs : list (string * request)) : Prop :=
  match reqs with
  | [] => True
  | (uuid, req) :: rest =>
      id_safe products uuid req ∧ all_id_safe (handle products uuid req).2 rest
  end.

(** ** Specification of the filters *)

(** The category of [p] is the string [c], without regard to case. *)
Definition category_is (c : string) (p : obj) : Prop :=
  ∃ s, get p "category" = VStr s ∧ JsString.toLowerCase s = JsString.toLowerCase c.

(** The name of [p] contains the string [t], without regard to case. *)
Definition name_contains (t : string) (p : obj) : Prop :=
  ∃ n before after,
    get p "name" = VStr n ∧
    JsString.toLowerCase n = before ++ JsString.toLowerCase t ++ after.

Definition category_isb (c : string) (p : obj) : bool :=
  match get p "category" with
  | VStr s => String.eqb (JsString.toLowerCase s) (JsString.toLowerCase c)
  | _ => false
  end.

Definition name_containsb (t : string) (p : obj) : bool :=
  match get p "name" with
  | VStr n => JsString.includes (JsString.toLowerCase n) (JsString.toLowerCase t)
  | _ => false
  end.

(** A record passes a filter parameter that is absent or empty; it passes
    a string parameter by the test, and no record passes a parameter that
    is not a string. *)
Definition passes (param : option qvalue) (test : string → obj → bool) (p : obj) : bool :=
  match param with
  | None => true
  | Some (QStr s) => if String.eqb s "" then true else test s p
  | Some _ => false
  end.

(** The records that satisfy both filters of a query. *)
Definition satisfies (q : query) (p : obj) : bool :=
  passes (q_category q) category_isb p && passes (q_search q) name_containsb p.



(** ** Specification of the router *)

(** A path segment that reads as the literal [lit] without regard to
    case. *)
Definition is_literal (lit seg : string) : bool :=
  String.eqb (JsString.toLowerCase seg) lit.

(** The handler a method and a path select, with the parameters bound,
    written out case by case; HEAD selects what GET selects. *)
Definition target (m : method) (path : list string)
    : option (endpoint * gmap string string) :=
  match path with
  | [] =>
      match m with
      | GET | HEAD => Some (Root, ∅)
      | _ => None
      end
  | [a; b] =>
      if is_literal "api" a && is_literal "products" b then
        match m with
        | GET | HEAD => Some (ListProducts, ∅)
        | POST => Some (CreateProduct, ∅)
        | _ => None
        end
      else None
  | [a; b; c] =>
      if is_literal "api" a && is_literal "products" b && negb (String.eqb c "") then
        match m with
        | GET | HEAD => Some (GetProduct, {[ "id" := c ]})
        | PUT => Some (UpdateProduct, {[ "id" := c ]})
        | DELETE => Some (DeleteProduct, {[ "id" := c ]})
        | _ => None
        end
      else None
  | _ => None
  end.

(** GET, PUT or DELETE /api/products/:id with the key and a body. *)
Definition by_id (m : method) (id : string) (b : obj) : request :=
  authorized m ["api"; "products"; id] no_query b.

(** The first record with the given id sits at [index] and is [q]. *)
Definition first_with_id (products : list obj) (id : string) (index : nat) (q : obj) : Prop :=
  products !! index = Some q ∧ get q "id" = VStr id ∧
  ∀ j r, (j < index)%nat → products !! j = Some r → get r "id" ≠ VStr id.

(** One of the three endpoints that look a product up by id. *)
Definition by_id_endpoint (e : endpoint) : Prop :=
  e = GetProduct ∨ e = UpdateProduct ∨ e = DeleteProduct.

(** The verb under which an endpoint is registered. *)
Definition method_of (e : endpoint) : method :=
  match e with
  | Root | ListProducts | GetProduct | ProductStats => GET
  | CreateProduct => POST
  | UpdateProduct => PUT
  | DeleteProduct => DELETE
  end.

(** ** Specification of the list handler's edge cases *)

(** Two filter parameters that are the same, or two strings that differ
    in case only. *)
Definition same_ignoring_case (a b : option qvalue) : Prop :=
  a = b ∨
  ∃ s t, a = Some (QStr s) ∧ b = Some (QStr t) ∧
         JsString.toLowerCase s = JsString.toLowerCase t.

(** A filter step that meets something other than strings: the parameter
    is given, and for some record of the sequence the parameter or the
    record's field is not a string. *)
Definition meets_non_string (param : option qvalue) (field : string) (l : list obj) : Prop :=
  given param = true ∧
  ∃ p, p ∈ l ∧ ∀ s t, ¬ (param = Some (QStr s) ∧ get p field = VStr t).

(** GET /api/products with the key and the given query. *)
Definition list_request (q : query) : request :=
  authorized GET ["api"; "products"] q ∅.

(** ** Specification of the pagination *)

(** The decimal numeral of an integer, without leading zeros. *)
Definition numeral (z : Z) : string := NilZero.string_of_int (Z.to_int z).

(** The value of a sequence of decimal digits, read from the left onto
    [acc]. *)
Fixpoint digits_value (d : Decimal.uint) (acc : Z) : Z :=
  match d with
  | Decimal.Nil => acc
  | Decimal.D0 d' => digits_value d' (acc * 10 + 0)
  | Decimal.D1 d' => digits_value d' (acc * 10 + 1)
  | Decimal.D2 d' => digits_value d' (acc * 10 + 2)
  | Decimal.D3 d' => digits_value d' (acc * 10 + 3)
  | Decimal.D4 d' => digits_value d' (acc * 10 + 4)
  | Decimal.D5 d' => digits_value d' (acc * 10 + 5)
  | Decimal.D6 d' => digits_value d' (acc * 10 + 6)
  | Decimal.D7 d' => digits_value d' (acc * 10 + 7)
  | Decimal.D8 d' => digits_value d' (acc * 10 + 8)
  | Decimal.D9 d' => digits_value d' (acc * 10 + 9)
  end.




(** ** Specification of the statistics *)

(** The names an object inherits from Object.prototype; an accumulator
    created as [{}] reads them before any count is written. *)
Definition object_prototype_members : list string :=
  [ "constructor"; "hasOwnProperty"; "isPrototypeOf"; "propertyIsEnumerable";
    "toLocaleString"; "toString"; "valueOf"; "__proto__";
    "__defineGetter__"; "__defineSetter__"; "__lookupGetter__"; "__lookupSetter__" ].

(** The category of [p] is exactly the string [c]. *)
Definition category_exactly (c : string) (p : obj) : bool :=
  match get p "category" with
  | VStr s => String.eqb s c
  | _ => false
  end.

(** The number of records whose category is exactly [c]. *)
Definition count_of (c : string) (products : list obj) : nat :=
  length (filter (λ p, category_exactly c p = true) products).

(** ** Specification of the records *)

(** The six properties of a product record. *)
Definition product_fields : gset string :=
  {[ "id"; "name"; "description"; "price"; "category"; "inStock" ]}.

(** A record that has the six properties, whatever their values. *)
Definition has_product_fields (p : obj) : Prop := product_fields ⊆ dom p.

(** * Properties *)

(** ** The middleware chain *)

Lemma handle_error products uuid req err :
  dispatch req = inl err → handle products uuid req = (error_handler err, products).
Proof. intros H. unfold handle. by rewrite H. Qed.

Lemma handle_routed products uuid req e params :
  dispatch req = inr (e, params) →
  handle products uuid req =
    (match (run e params products uuid req).1 with
     | Ok res => res
     | Throw err => error_handler err
     end, (run e params products uuid req).2).
Proof. intros H. unfold handle. rewrite H. by destruct (run _ _ _ _ _). Qed.

Lemma error_handler_not_found message :
  error_handler (NotFoundError message) = json 404 (error_body "NotFoundError" message).
Proof. reflexivity. Qed.

Lemma error_handler_validation message :
  error_handler (ValidationError message) = json 400 (error_body "ValidationError" message).
Proof. reflexivity. Qed.




(** ** Lookups by id *)

Lemma id_is_spec id p : id_is (Some id) p = true ↔ get p "id" = VStr id.
Proof.
  unfold id_is. destruct (get p "id"); try (split; [done|discriminate]).
  destruct (String.eqb_spec s id); split; congruence.
Qed.

Lemma find_none {A} (f : A → bool) l :
  JsArray.find f l = None ↔ ∀ x, x ∈ l → f x = false.
Proof.
  induction l as [|x l IH]; simpl.
  - split; [intros _ y Hy; by apply elem_of_nil in Hy|done].
  - destruct (f x) eqn:Hx.
    + split; [done|]. intros H. specialize (H x (list_elem_of_here _ _)). congruence.
    + rewrite IH. split.
      * intros H y [->|Hy]%elem_of_cons; auto.
      * intros H y Hy. apply H. by right.
Qed.

Lemma findIndex_none {A} (f : A → bool) l :
  JsArray.findIndex f l = None ↔ ∀ x, x ∈ l → f x = false.
Proof.
  induction l as [|x l IH]; simpl.
  - split; [intros _ y Hy; by apply elem_of_nil in Hy|done].
  - destruct (f x) eqn:Hx.
    + split; [done|]. intros H. specialize (H x (list_elem_of_here _ _)). congruence.
    + destruct (JsArray.findIndex f l) eqn:Hi; simpl.
      * split; [done|]. intros H.
        assert (Some n = None) as Hn; [|done].
        apply IH. intros y Hy. apply H. by right.
      * split; [|done]. intros _ y [->|Hy]%elem_of_cons; [done|].
        by apply IH.
Qed.

(** [findIndex] answers the first position that passes the test. *)
Lemma findIndex_some {A} (f : A → bool) l i :
  JsArray.findIndex f l = Some i ↔
  ∃ x, l !! i = Some x ∧ f x = true ∧ ∀ j y, (j < i)%nat → l !! j = Some y → f y = false.
Proof.
  revert i. induction l as [|x l IH]; intros i; simpl.
  - split; [done|]. by intros (y & Hy & _).
  - destruct (f x) eqn:Hx.
    + split.
      * intros [= <-]. exists x. repeat split; [done|]. intros j y Hj. lia.
      * intros (y & Hy & Hfy & Hfirst). destruct i as [|i]; [done|].
        specialize (Hfirst 0%nat x ltac:(lia) eq_refl). congruence.
    + destruct i as [|i].
      * split.
        -- destruct (JsArray.findIndex f l); simpl; discriminate.
        -- intros (y & [= ->] & Hfy & _). congruence.
      * split.
        -- destruct (JsArray.findIndex f l) as [k|] eqn:Hk; simpl; [|done].
           intros [= ->]. destruct (proj1 (IH i) eq_refl) as (y & Hy & Hfy & Hfirst).
           exists y. repeat split; [done..|].
           intros [|j] z Hj; simpl; [by intros [= <-]|].
           apply Hfirst. lia.
        -- intros (y & Hy & Hfy & Hfirst).
           assert (JsArray.findIndex f l = Some i) as ->; [|done].
           apply IH. exists y. repeat split; [done..|].
           intros j z Hj Hz. apply (Hfirst (S j) z); [lia|done].
Qed.

Lemma no_product_with_id (products : list obj) id :
  (∀ p, p ∈ products → get p "id" ≠ VStr id) →
  ∀ p, p ∈ products → id_is (Some id) p = false.
Proof.
  intros H p Hp. destruct (id_is (Some id) p) eqn:Hid; [|done].
  apply id_is_spec in Hid. by destruct (H p Hp).
Qed.

(** ** Routing of /api/products/stats *)



(** ** The API key *)




(** What the request with the truncated body is answered. *)
Lemma truncated_body_response :
  handle initial_products "" truncated_body_request =
    (json 400 (error_body "SyntaxError" "Unexpected end of JSON input"),
     initial_products).
Proof. reflexivity. Qed.

(** ** Deleting *)

(** C9: a DELETE request routed to the delete handler with an id that no
    product of the catalog has is answered 404, NotFoundError, and the
    catalog after the request is the catalog before it. *)
Theorem delete_unknown_id (products : list obj) uuid req params id :
  dispatch req = inr (DeleteProduct, params) →
  params !! "id" = Some id →
  (∀ p, p ∈ products → get p "id" ≠ VStr id) →
  handle products uuid req =
    (json 404 (error_body "NotFoundError" "Product not found"), products).
Proof.
  intros Hd Hid Hnone.
  rewrite (handle_routed _ _ _ _ _ Hd). simpl. rewrite Hid.
  unfold delete_product.
  by rewrite (proj2 (findIndex_none _ _) (no_product_with_id _ _ Hnone)).
Qed.

Lemma delete_unknown_id_witness :
  handle initial_products "" delete_42_request =
    (json 404 (error_body "NotFoundError" "Product not found"), initial_products).
Proof.
  apply (delete_unknown_id initial_products "" delete_42_request {[ "id" := "42" ]} "42");
    try reflexivity.
  intros p Hp.
  repeat (apply elem_of_cons in Hp as [->|Hp]; [by vm_compute|]).
  by apply elem_of_nil in Hp.
Defined.

(** ** Strings and slices *)

Lemma startsWith_spec s t :
  JsString.startsWith s t = true ↔ ∃ after, s = t ++ after.
Proof.
  revert s. induction t as [|b t IH]; intros s; simpl.
  - split; [by exists s|done].
  - destruct s as [|a s]; [split; [done|by intros (? & ?)]|].
    destruct (Ascii.eqb_spec a b) as [->|Hne].
    + rewrite IH. split; intros (after & H); exists after; simpl in *.
      * by rewrite H.
      * by injection H.
    + split; [done|]. intros (after & [= ? ?]). done.
Qed.

Lemma includes_spec s t :
  JsString.includes s t = true ↔ ∃ before after, s = before ++ t ++ after.
Proof.
  induction s as [|a s IH]; simpl.
  - rewrite orb_false_r, startsWith_spec. split.
    + intros (after & H). by exists "", after.
    + intros ([|? ?] & after & H); [by exists after|done].
  - rewrite orb_true_iff, startsWith_spec, IH. split.
    + intros [(after & H)|(before & after & H)].
      * by exists "", after.
      * exists (String a before), after. simpl. by rewrite H.
    + intros ([|c before] & after & H); simpl in H.
      * left. by exists after.
      * right. exists before, after. by injection H.
Qed.

Lemma category_isb_spec c p : category_isb c p = true ↔ category_is c p.
Proof.
  unfold category_isb, category_is.
  destruct (get p "category"); try (split; [done|by intros (? & ? & ?)]).
  destruct (String.eqb_spec (JsString.toLowerCase s) (JsString.toLowerCase c)).
  - split; [by exists s|done].
  - split; [done|]. intros (s' & [= <-] & ?). done.
Qed.

Lemma name_containsb_spec t p : name_containsb t p = true ↔ name_contains t p.
Proof.
  unfold name_containsb, name_contains.
  destruct (get p "name"); try (split; [done|by intros (? & ? & ? & ? & ?)]).
  rewrite includes_spec. split.
  - intros (before & after & H). by exists s, before, after.
  - intros (n & before & after & [= <-] & H). by exists before, after.
Qed.

(** ** Rounding to a double *)

Section rounding.
Import JsNumber.

Lemma round_magnitude_small a : a < 2 ^ 53 → round_magnitude a = a.
Proof. intros H. unfold round_magnitude. by rewrite (proj2 (Z.ltb_lt _ _) H). Qed.

(** The quotient and remainder of a magnitude of at least 2^53 by its
    unit in the last place. *)
Lemma ulp_facts a :
  2 ^ 53 ≤ a →
  let k := Z.log2 a in
  let ulp := 2 ^ (k - 52) in
  53 ≤ k ∧ 2 ≤ ulp ∧ 2 ^ k = 2 ^ 52 * ulp ∧
  a = (a / ulp) * ulp + a mod ulp ∧ 0 ≤ a mod ulp < ulp ∧
  2 ^ 52 ≤ a / ulp < 2 ^ 53.
Proof.
  intros Ha k ulp.
  assert (0 < a) as Hpos by (pose proof (Z.pow_pos_nonneg 2 53); lia).
  destruct (Z.log2_spec a Hpos) as [Hlo Hhi]. fold k in Hlo, Hhi.
  assert (53 ≤ k) as Hk.
  { apply Z.log2_le_pow2; [lia|done]. }
  assert (2 ^ k = 2 ^ 52 * ulp) as Hku.
  { unfold ulp. rewrite <- Z.pow_add_r by lia. f_equal. lia. }
  assert (2 ≤ ulp) as Hulp.
  { unfold ulp. change 2 with (2 ^ 1) at 1. apply Z.pow_le_mono_r; lia. }
  assert (2 ^ (Z.succ k) = 2 ^ 53 * ulp) as Hku'.
  { rewrite Z.pow_succ_r by lia. rewrite Hku. change (2 ^ 53) with (2 * 2 ^ 52). lia. }
  pose proof (Z.div_mod a ulp ltac:(lia)) as Hdm.
  pose proof (Z.mod_pos_bound a ulp ltac:(lia)) as Hmod.
  split; [done|]. split; [done|]. split; [done|].
  split; [lia|]. split; [done|].
  split.
  - apply Z.div_le_lower_bound; lia.
  - apply Z.div_lt_upper_bound; lia.
Qed.

Lemma round_magnitude_large a :
  2 ^ 53 ≤ a →
  let ulp := 2 ^ (Z.log2 a - 52) in
  ∃ q', (q' = a / ulp ∨ q' = a / ulp + 1) ∧ round_magnitude a = q' * ulp.
Proof.
  intros Ha ulp. unfold round_magnitude.
  rewrite (proj2 (Z.ltb_ge _ _) Ha). fold ulp.
  destruct (_ || _); eauto.
Qed.

(** A rounded magnitude stays between the powers of two around it. *)
Lemma round_magnitude_bounds a :
  2 ^ 53 ≤ a →
  2 ^ Z.log2 a ≤ round_magnitude a ≤ 2 ^ Z.succ (Z.log2 a).
Proof.
  intros Ha.
  destruct (ulp_facts a Ha) as (Hk & Hulp & Hku & Hdm & Hmod & Hq).
  destruct (round_magnitude_large a Ha) as (q' & Hq' & ->).
  rewrite Z.pow_succ_r by lia. rewrite Hku.
  set (ulp := 2 ^ (Z.log2 a - 52)) in *.
  destruct Hq' as [-> | ->]; nia.
Qed.

Lemma round_magnitude_ge a : 2 ^ 53 ≤ a → 2 ^ 53 ≤ round_magnitude a.
Proof.
  intros Ha. destruct (round_magnitude_bounds a Ha) as [Hlo _].
  etrans; [|exact Hlo]. apply Z.pow_le_mono_r; [lia|].
  apply Z.log2_le_pow2; lia.
Qed.

(** Rounding is monotone. *)
Lemma round_magnitude_mono a b :
  0 ≤ a ≤ b → round_magnitude a ≤ round_magnitude b.
Proof.
  intros [Ha Hab].
  destruct (decide (b < 2 ^ 53)) as [Hb|Hb].
  { rewrite !round_magnitude_small by lia. done. }
  destruct (decide (a < 2 ^ 53)) as [Ha'|Ha'].
  { rewrite (round_magnitude_small a) by done.
    pose proof (round_magnitude_ge b ltac:(lia)). lia. }
  assert (2 ^ 53 ≤ a) as Ha53 by lia. assert (2 ^ 53 ≤ b) as Hb53 by lia.
  assert (Z.log2 a ≤ Z.log2 b) as Hlog by (by apply Z.log2_le_mono).
  destruct (decide (Z.log2 a = Z.log2 b)) as [Heq|Hne].
  - destruct (ulp_facts a Ha53) as (Hk & Hulp & Hku & Hdm & Hmod & Hq).
    destruct (ulp_facts b Hb53) as (_ & _ & _ & Hdm' & Hmod' & Hq').
    unfold round_magnitude.
    rewrite (proj2 (Z.ltb_ge _ _) Ha53), (proj2 (Z.ltb_ge _ _) Hb53).
    rewrite <- Heq in *. set (ulp := 2 ^ (Z.log2 a - 52)) in *.
    assert (a / ulp ≤ b / ulp) as Hdiv by (apply Z.div_le_mono; lia).
    destruct (decide (a / ulp = b / ulp)) as [Hq_eq|Hq_ne].
    + rewrite <- Hq_eq in *.
      assert (a mod ulp ≤ b mod ulp) as Hr by nia.
      destruct (Z.odd (a / ulp));
        repeat match goal with
        | |- context [?x <? ?y] => destruct (Z.ltb_spec x y)
        | |- context [?x =? ?y] => destruct (Z.eqb_spec x y)
        end; simpl; nia.
    + assert ((a / ulp + 1) * ulp ≤ (b / ulp) * ulp) by nia.
      repeat match goal with
      | |- context [if ?c then _ else _] => destruct c
      end; nia.
  - destruct (round_magnitude_bounds a Ha53) as [_ Hhi].
    destruct (round_magnitude_bounds b Hb53) as [Hlo _].
    etrans; [exact Hhi|]. etrans; [|exact Hlo].
    apply Z.pow_le_mono_r; lia.
Qed.

(** A rounded magnitude is its own rounding. *)
Lemma round_magnitude_idempotent a :
  0 ≤ a → round_magnitude (round_magnitude a) = round_magnitude a.
Proof.
  intros Ha. destruct (decide (a < 2 ^ 53)) as [Hsmall|Hlarge].
  { rewrite (round_magnitude_small a) by done. by apply round_magnitude_small. }
  assert (2 ^ 53 ≤ a) as Ha53 by lia.
  destruct (ulp_facts a Ha53) as (Hk & Hulp & Hku & Hdm & Hmod & Hq).
  destruct (round_magnitude_large a Ha53) as (q' & Hq' & Hm).
  pose proof (round_magnitude_ge a Ha53) as Hge.
  set (k := Z.log2 a) in *. set (ulp := 2 ^ (k - 52)) in *.
  set (m := round_magnitude a) in *.
  assert (2 ^ 52 ≤ q' ≤ 2 ^ 53) as Hq'range by lia.
  assert (0 < m) as Hmpos by lia.
  destruct (decide (q' = 2 ^ 53)) as [Htop|Hbelow].
  - (* the mantissa overflowed: the result is the next power of two *)
    assert (m = 2 ^ Z.succ k) as Hpow.
    { rewrite Z.pow_succ_r by lia. rewrite Hku, Hm, Htop.
      change (2 ^ 53) with (2 * 2 ^ 52). lia. }
    assert (Z.log2 m = Z.succ k) as Hlog.
    { rewrite Hpow. apply Z.log2_pow2. lia. }
    unfold round_magnitude. rewrite (proj2 (Z.ltb_ge _ _) Hge), Hlog.
    assert (2 ^ (Z.succ k - 52) = 2 * ulp) as ->.
    { unfold ulp. rewrite <- Z.pow_succ_r by lia. f_equal. lia. }
    assert (m = 2 ^ 52 * (2 * ulp)) as Hm2
      by (rewrite Hm, Htop; change (2 ^ 53) with (2 * 2 ^ 52); lia).
    assert (m mod (2 * ulp) = 0) as ->.
    { rewrite Hm2. apply Z.mod_mul. lia. }
    assert (m / (2 * ulp) = 2 ^ 52) as ->.
    { rewrite Hm2. apply Z.div_mul. lia. }
    rewrite (proj2 (Z.ltb_ge _ _)) by lia.
    rewrite (proj2 (Z.eqb_neq _ _)) by lia. simpl. lia.
  - assert (Z.log2 m = k) as Hlog.
    { apply Z.log2_unique; [lia|]. rewrite Z.pow_succ_r by lia. rewrite Hku. nia. }
    unfold round_magnitude. rewrite (proj2 (Z.ltb_ge _ _) Hge), Hlog. fold ulp.
    assert (m mod ulp = 0) as -> by (rewrite Hm; apply Z.mod_mul; lia).
    assert (m / ulp = q') as -> by (rewrite Hm; apply Z.div_mul; lia).
    rewrite (proj2 (Z.ltb_ge _ _)) by lia.
    rewrite (proj2 (Z.eqb_neq _ _)) by lia. simpl. lia.
Qed.

(** Below 2^1024 - 2^970 a magnitude rounds to less than 2^1024. *)
Lemma round_magnitude_finite a :
  0 ≤ a < 2 ^ 1024 - 2 ^ 970 → round_magnitude a < 2 ^ 1024.
Proof.
  intros [Ha Hlt].
  destruct (decide (a < 2 ^ 53)) as [Hsmall|Hlarge].
  { rewrite round_magnitude_small by done. lia. }
  assert (2 ^ 53 ≤ a) as Ha53 by lia.
  assert (Z.log2 a < 1024) as Hk.
  { apply Z.log2_lt_pow2; lia. }
  destruct (decide (Z.log2 a = 1023)) as [Htop|Hbelow].
  - unfold round_magnitude. rewrite (proj2 (Z.ltb_ge _ _) Ha53), Htop.
    change (1023 - 52) with 971.
    assert (2 ^ 1024 = 9007199254740992 * (2 * 2 ^ 970)) as E1 by reflexivity.
    assert (2 ^ 971 = 2 * 2 ^ 970) as E2 by reflexivity.
    assert (0 < 2 ^ 970) as E3 by reflexivity.
    rewrite E1 in *. rewrite E2. clear E1 E2 Ha53 Hlarge Hk Htop.
    generalize dependent (2 ^ 970). intros H Hlt HH.
    pose proof (Z.div_mod a (2 * H) ltac:(lia)) as Hdm.
    pose proof (Z.mod_pos_bound a (2 * H) ltac:(lia)) as Hmod.
    assert (a / (2 * H) < 9007199254740992) as Hq.
    { apply Z.div_lt_upper_bound; lia. }
    set (q := a / (2 * H)) in *. set (r := a mod (2 * H)) in *.
    destruct (decide (q = 9007199254740991)) as [Hmax|Hnot].
    + assert (r < H) as Hhalf by (rewrite Hmax in Hdm; lia).
      rewrite (proj2 (Z.ltb_ge _ _)) by lia.
      rewrite (proj2 (Z.eqb_neq _ _)) by lia. simpl. rewrite Hmax. lia.
    + assert ((q + 1) * (2 * H) ≤ 9007199254740991 * (2 * H)) by nia.
      assert (0 ≤ q) by (apply Z.div_pos; lia).
      destruct (_ || _); nia.
  - destruct (round_magnitude_bounds a Ha53) as [_ Hhi].
    assert (2 ^ Z.succ (Z.log2 a) ≤ 2 ^ 1023) by (apply Z.pow_le_mono_r; lia).
    assert (2 ^ 1023 < 2 ^ 1024) by lia. lia.
Qed.

(** *** The double nearest to an integer *)

Lemma round_small z : - 2 ^ 53 < z < 2 ^ 53 → round z = Num z.
Proof.
  intros Hz. unfold round. rewrite round_magnitude_small by lia.
  rewrite (proj2 (Z.leb_gt _ _)) by lia.
  destruct (Z.ltb_spec z 0); f_equal; lia.
Qed.

(** What rounding makes of an integer that is not negative. *)
Lemma round_nonneg z :
  0 ≤ z →
  (z < 2 ^ 53 ∧ round z = Num z) ∨
  (2 ^ 53 ≤ z ∧ (round z = Inf false ∨ ∃ m, 2 ^ 53 ≤ m ∧ round z = Num m)).
Proof.
  intros Hz. destruct (decide (z < 2 ^ 53)) as [Hs|Hl].
  - left. split; [done|]. apply round_small. lia.
  - right. split; [lia|]. unfold round.
    rewrite (proj2 (Z.ltb_ge _ _) Hz), Z.abs_eq by done.
    pose proof (round_magnitude_ge z ltac:(lia)).
    destruct (_ <=? _); eauto.
Qed.

(** What rounding makes of a negative integer. *)
Lemma round_neg z :
  z < 0 → round z = Inf true ∨ ∃ m, m < 0 ∧ round z = Num m.
Proof.
  intros Hz. unfold round. rewrite (proj2 (Z.ltb_lt _ _) Hz).
  destruct (_ <=? _); [by left|]. right. eexists. split; [|done].
  destruct (decide (Z.abs z < 2 ^ 53)).
  - rewrite round_magnitude_small by done. lia.
  - pose proof (round_magnitude_ge (Z.abs z) ltac:(lia)). lia.
Qed.

(** The integers rounding yields are their own rounding. *)
Lemma round_idempotent z m : round z = Num m → round m = Num m.
Proof.
  unfold round at 1.
  pose proof (round_magnitude_idempotent (Z.abs z) (Z.abs_nonneg z)) as Hidem.
  set (r := round_magnitude (Z.abs z)) in *.
  assert (0 ≤ r) as Hr.
  { unfold r. destruct (decide (Z.abs z < 2 ^ 53)).
    - rewrite round_magnitude_small by done. lia.
    - pose proof (round_magnitude_ge (Z.abs z) ltac:(lia)). lia. }
  destruct (Z.leb_spec (2 ^ 1024) r) as [|Hfin]; [done|].
  intros [= <-]. unfold round.
  destruct (Z.ltb_spec z 0) as [Hneg|Hpos].
  - rewrite Z.abs_neq, Z.opp_involutive by lia.
    rewrite Hidem, (proj2 (Z.leb_gt _ _) Hfin).
    destruct (Z.ltb_spec (- r) 0); [done|]. f_equal. lia.
  - rewrite Z.abs_eq by done.
    rewrite Hidem, (proj2 (Z.leb_gt _ _) Hfin).
    by rewrite (proj2 (Z.ltb_ge _ _) Hr).
Qed.

(** Rounding keeps the order of negative integers. *)
Lemma round_neg_mono y s :
  y ≤ s → s < 0 → round s = Num s →
  round y = Inf true ∨ ∃ e, e ≤ s ∧ round y = Num e.
Proof.
  intros Hys Hs Hround.
  assert (round_magnitude (Z.abs s) = - s) as Hms.
  { unfold round in Hround. rewrite (proj2 (Z.ltb_lt _ _) Hs) in Hround.
    destruct (_ <=? _); [done|]. injection Hround as Hround. lia. }
  pose proof (round_magnitude_mono (Z.abs s) (Z.abs y) ltac:(lia)) as Hmono.
  unfold round. rewrite (proj2 (Z.ltb_lt y 0)) by lia.
  destruct (_ <=? _); [by left|]. right. eexists. split; [|done]. lia.
Qed.

(** An integer below 2^1024 - 2^970 rounds to an integer. *)
Lemma round_finite z :
  0 ≤ z < 2 ^ 1024 - 2 ^ 970 → ∃ m, round z = Num m.
Proof.
  intros Hz. unfold round. rewrite Z.abs_eq by lia.
  pose proof (round_magnitude_finite z Hz).
  rewrite (proj2 (Z.leb_gt _ _)) by done. eauto.
Qed.

End rounding.

(** ** Slices and pages *)

Example round_samples :
  JsNumber.round (2 ^ 53 + 1) = Num (2 ^ 53) ∧
  JsNumber.round (2 ^ 53 + 3) = Num (2 ^ 53 + 4) ∧
  JsNumber.round (- (2 ^ 53 + 3)) = Num (- (2 ^ 53 + 4)) ∧
  JsNumber.round (10 ^ 309) = Inf false ∧
  JsNumber.round (2 ^ 1024 - 2 ^ 970) = Inf false ∧
  JsNumber.round (2 ^ 1024 - 2 ^ 970 - 1) = Num (2 ^ 1024 - 2 ^ 971) ∧
  JsNumber.round (10 ^ 23) = Num 99999999999999991611392 ∧
  JsNumber.mul (JsNumber.sub (Num 1) (Num 1)) (Inf false) = NaN.
Proof. repeat split; vm_compute; reflexivity. Qed.

(** ** Slices *)

Lemma clamp_index_le len z : (JsArray.clamp_index len z ≤ len)%nat.
Proof. unfold JsArray.clamp_index. destruct (Z.ltb_spec z 0); lia. Qed.

Lemma clamp_index_large len z :
  Z.of_nat len ≤ z → JsArray.clamp_index len z = len.
Proof.
  intros Hz. unfold JsArray.clamp_index.
  rewrite (proj2 (Z.ltb_ge _ _)) by lia. lia.
Qed.

Lemma clamp_index_nonneg len z :
  0 ≤ z → JsArray.clamp_index len z = Z.to_nat (Z.min z (Z.of_nat len)).
Proof. intros Hz. unfold JsArray.clamp_index. by rewrite (proj2 (Z.ltb_ge _ _)). Qed.

(** [slice] between two indices in order, neither negative. *)
Lemma slice_in_order {A} (l : list A) (a b : Z) :
  0 ≤ a ≤ b →
  JsArray.slice l (Num a) (Num b) = take (Z.to_nat (b - a)) (drop (Z.to_nat a) l).
Proof.
  intros Hab. unfold JsArray.slice, JsArray.relative_index, JsArray.clamp_index.
  rewrite !(proj2 (Z.ltb_ge _ _)) by lia.
  destruct (decide (a ≤ Z.of_nat (length l))) as [Ha|Ha].
  - rewrite (Z.min_l a) by lia.
    destruct (decide (b ≤ Z.of_nat (length l))) as [Hb|Hb].
    + rewrite (Z.min_l b) by lia. f_equal. lia.
    + rewrite (Z.min_r b) by lia.
      rewrite !take_ge; [done|rewrite length_drop; lia..].
  - rewrite (Z.min_r a), (Z.min_r b) by lia.
    rewrite !drop_ge by lia. by rewrite !take_nil.
Qed.

(** A slice that starts at or behind the end of the array is empty. *)
Lemma slice_start_beyond {A} (l : list A) start end_ :
  JsArray.relative_index (length l) start = length l →
  JsArray.slice l start end_ = [].
Proof.
  intros Hs. unfold JsArray.slice. rewrite Hs, drop_ge by lia. apply take_nil.
Qed.

(** A slice from an index to the end of the array or beyond. *)
Lemma slice_to_the_end {A} (l : list A) (a : Z) end_ :
  0 ≤ a →
  JsArray.relative_index (length l) end_ = length l →
  JsArray.slice l (Num a) end_ = drop (Z.to_nat a) l.
Proof.
  intros Ha He. unfold JsArray.slice. rewrite He. simpl.
  rewrite clamp_index_nonneg by done.
  destruct (decide (a ≤ Z.of_nat (length l))).
  - rewrite Z.min_l by lia. apply take_ge. rewrite length_drop. lia.
  - rewrite Z.min_r by lia. rewrite !drop_ge by lia. apply take_nil.
Qed.

(** The index of a number that is at least the length of the array. *)
Lemma relative_index_large len n :
  n = Inf false ∨ (∃ m, Z.of_nat len ≤ m ∧ n = Num m) →
  JsArray.relative_index len n = len.
Proof.
  intros [->|(m & Hm & ->)]; simpl; [done|]. by apply clamp_index_large.
Qed.

(** ** Pages *)

Section pages.
Import JsNumber.

(** A page whose last index is below 2^53: every step is exact. *)
Lemma paginate_small (filtered : list obj) (P L : Z) :
  0 < P → 0 < L → P * L < 2 ^ 53 →
  paginate filtered (Num P) (Num L) =
    take (Z.to_nat L) (drop (Z.to_nat ((P - 1) * L)) filtered).
Proof.
  intros HP HL Hsmall. unfold paginate, sub, mul.
  rewrite (round_small (P - 1)) by nia.
  rewrite (round_small ((P - 1) * L)) by nia.
  unfold add. rewrite (round_small ((P - 1) * L + L)) by nia.
  rewrite slice_in_order by nia. do 2 f_equal. lia.
Qed.

(** Two ways to cut the same page out of an array: starts that agree or
    both lie behind the end, lengths that agree or both reach it. *)
Lemma take_drop_agree {A} (l : list A) (a a' b b' : nat) :
  a = a' ∨ (length l ≤ a ∧ length l ≤ a')%nat →
  b = b' ∨ (length l ≤ a + b ∧ length l ≤ a' + b')%nat →
  take b (drop a l) = take b' (drop a' l).
Proof.
  intros [<-|[Ha Ha']] Hb.
  - destruct Hb as [<-|[Hb Hb']]; [done|].
    rewrite !take_ge; [done|rewrite length_drop; lia..].
  - rewrite !drop_ge by done. by rewrite !take_nil.
Qed.

(** A page of positive number and size, in an array that JavaScript can
    hold: the rounding of the indices does not show. *)
Lemma paginate_positive (filtered : list obj) (P L : Z) :
  0 < P → 0 < L →
  Z.of_nat (length filtered) < 2 ^ 32 →
  paginate filtered (Num P) (Num L) =
    take (Z.to_nat L) (drop (Z.to_nat ((P - 1) * L)) filtered).
Proof.
  intros HP HL Hlen.
  destruct (decide (P * L < 2 ^ 53)) as [Hsmall|Hlarge];
    [by apply paginate_small|].
  assert (2 ^ 32 < 2 ^ 52) as Hpow by done.
  unfold paginate.
  destruct (decide (P = 1)) as [->|HP1].
  - (* page 1 of a limit of 2^53 or more: the whole array *)
    unfold sub. rewrite (round_small (1 - 1)) by done.
    unfold mul. rewrite (round_small ((1 - 1) * L)) by done.
    unfold add. change ((1 - 1) * L) with 0. rewrite Z.add_0_l.
    rewrite slice_to_the_end; [|done|].
    + change (Z.to_nat 0) with 0%nat. rewrite take_ge; [done|].
      rewrite length_drop. lia.
    + apply relative_index_large.
      destruct (round_nonneg L ltac:(lia)) as [[Hs _]|[_ [->|(m & Hm & ->)]]];
        [lia|by left|]. right. exists m. split; [lia|done].
  - (* a later page that starts at 2^52 or more: behind the end *)
    assert (2 ^ 52 ≤ (P - 1) * L) as Hstart by nia.
    rewrite slice_start_beyond.
    + rewrite drop_ge by lia. by rewrite take_nil.
    + apply relative_index_large. unfold sub.
      destruct (round_nonneg (P - 1) ltac:(lia))
        as [[_ ->]|[Hbig [->|(a & Ha & ->)]]]; unfold mul.
      * destruct (round_nonneg ((P - 1) * L) ltac:(lia))
          as [[_ ->]|[_ [->|(m & Hm & ->)]]];
          [right; eexists; split; [|done]; lia|by left|].
        right. exists m. split; [lia|done].
      * rewrite (proj2 (Z.eqb_neq _ _)) by lia.
        rewrite (proj2 (Z.ltb_ge _ _)) by lia. by left.
      * destruct (round_nonneg (a * L) ltac:(nia))
          as [[Hs _]|[_ [->|(m & Hm & ->)]]]; [nia|by left|].
        right. exists m. split; [lia|done].
Qed.

End pages.

(** ** Numerals *)

Lemma read_digits_numeral (d : Decimal.uint) : ∀ acc : Z,
  JsString.read_digits 10 (Some acc) (NilEmpty.string_of_uint d) =
    Some (digits_value d acc).
Proof. induction d; intros acc; simpl; [done|apply IHd..]. Qed.

Lemma of_uint_acc_value (d : Decimal.uint) : ∀ acc : positive,
  Z.pos (Pos.of_uint_acc d acc) = digits_value d (Z.pos acc).
Proof.
  induction d; intros acc; simpl; [done|rewrite IHd; f_equal; lia..].
Qed.

Lemma of_uint_value (d : Decimal.uint) : Z.of_N (Pos.of_uint d) = digits_value d 0.
Proof.
  induction d; simpl; [done|done|by rewrite of_uint_acc_value..].
Qed.

Lemma parseInt_digits (d : Decimal.uint) :
  d ≠ Decimal.Nil →
  JsNumber.parseInt (NilEmpty.string_of_uint d) = JsNumber.round (digits_value d 0).
Proof.
  intros Hd. destruct d as [|d|d|d|d|d|d|d|d|d|d]; [done|destruct d|..].
  all: unfold JsNumber.parseInt; cbn [NilEmpty.string_of_uint JsString.trimStart].
  all: repeat match goal with
       | |- context [JsString.is_white_space ?c] =>
           let b := eval vm_compute in (JsString.is_white_space c) in
           change (JsString.is_white_space c) with b
       end.
  all: cbv iota beta; cbn [JsString.read_digits].
  all: repeat match goal with
       | |- context [JsString.digit_value 10 ?c] =>
           let b := eval vm_compute in (JsString.digit_value 10 c) in
           change (JsString.digit_value 10 c) with b
       end.
  all: cbv iota beta; change (default 0 None) with 0;
    repeat match goal with
    | |- context [default 0 (Some ?a)] => change (default 0 (Some a)) with a
    end.
  all: try rewrite read_digits_numeral; reflexivity.
Qed.

(** [parseInt] reads the numeral of a positive integer as the double
    nearest to it. *)
Lemma parseInt_numeral (z : Z) : 0 < z → JsNumber.parseInt (numeral z) = JsNumber.round z.
Proof.
  intros Hz. destruct z as [|p|p]; [lia| |lia].
  unfold numeral, Z.to_int, NilZero.string_of_int, NilZero.string_of_uint.
  pose proof (Unsigned.to_uint_nonnil p) as Hnil.
  destruct (Pos.to_uint p) eqn:Hp; [done|..].
  all: rewrite parseInt_digits by done.
  all: by rewrite <- of_uint_value, <- Hp, Unsigned.of_to.
Qed.

Section numerals.
Import JsNumber.

(** The page cut for the doubles nearest to a page number and a limit is
    the page of the numbers themselves, as long as the limit stays
    finite and the array is one JavaScript can hold. *)
Lemma paginate_rounded (filtered : list obj) (P L : Z) :
  0 < P → 0 < L < 2 ^ 1024 - 2 ^ 970 →
  Z.of_nat (length filtered) < 2 ^ 32 →
  paginate filtered (round P) (round L) =
    take (Z.to_nat L) (drop (Z.to_nat ((P - 1) * L)) filtered).
Proof.
  intros HP HL Hlen.
  assert (2 ^ 32 < 2 ^ 53) as Hpow by done.
  destruct (round_finite L) as [L' HL']; [lia|].
  assert ((L' = L ∧ L < 2 ^ 53) ∨ (2 ^ 53 ≤ L' ∧ 2 ^ 53 ≤ L)) as HLL.
  { destruct (round_nonneg L) as [[Hs Hr]|[Hb [Hr|(m & Hm & Hr)]]]; [lia|..];
      rewrite HL' in Hr; [left|done|right]; split; try done; congruence. }
  rewrite HL'.
  destruct (round_nonneg P) as [[HPs ->]|[HPb [->|(P' & HP' & ->)]]]; [lia|..].
  - rewrite paginate_positive by lia.
    apply take_drop_agree.
    + destruct HLL as [[-> _]|[HL1 HL2]]; [by left|].
      destruct (decide (P = 1)) as [->|HP1]; [by left|]. right. nia.
    + destruct HLL as [[-> _]|[HL1 HL2]]; [by left|]. right. nia.
  - assert (L' ≠ 0 ∧ ¬ L' < 0) as [Hne Hge] by lia.
    unfold paginate, sub, mul.
    rewrite (proj2 (Z.eqb_neq _ _) Hne), (proj2 (Z.ltb_ge _ _)) by lia.
    rewrite slice_start_beyond by (apply relative_index_large; by left).
    rewrite drop_ge by nia. by rewrite take_nil.
  - rewrite paginate_positive by lia.
    apply take_drop_agree; right; nia.
Qed.


End numerals.

Lemma handle_list (products : list obj) uuid req params :
  dispatch req = inr (ListProducts, params) →
  handle products uuid req =
    (match list_products products (req_query req) with
     | Ok res => res
     | Throw err => error_handler err
     end, products).
Proof. intros Hd. by rewrite (handle_routed _ _ _ _ _ Hd). Qed.

(** ** Pagination *)




(** ** Filtering *)

Section filter_throwing.
Context {A : Type} (f : A → outcome bool) (g : A → bool).

(** When the visit ends without an exception, it kept the elements on
    which the callback answered true. *)
Lemma filter_throwing_agrees l r :
  filter_throwing f l = Ok r →
  (∀ x b, x ∈ l → f x = Ok b → b = g x) →
  r = filter (λ x, g x = true) l.
Proof.
  revert r. induction l as [|x l IH]; intros r; simpl.
  - by intros [= <-].
  - unfold mbind, outcome_bind.
    destruct (f x) as [b|] eqn:Hx; [|done].
    destruct (filter_throwing f l) as [rest|] eqn:Hl; [|done].
    intros [= <-] Hg.
    rewrite (Hg x b (list_elem_of_here _ _) Hx), filter_cons.
    rewrite (IH rest eq_refl) by (intros y c Hy; apply Hg; by right).
    by destruct (g x).
Qed.


(** A callback that always throws ends well on the empty array only. *)
Lemma filter_throwing_throws l r :
  (∀ x, ∃ e, f x = Throw e) → filter_throwing f l = Ok r → l = [] ∧ r = [].
Proof.
  intros Hf. destruct l as [|x l]; simpl; [by intros [= <-]|].
  destruct (Hf x) as [e He]. unfold mbind, outcome_bind. by rewrite He.
Qed.
End filter_throwing.

Lemma filter_all {A} (P : A → Prop) `{!∀ x, Decision (P x)} (l : list A) :
  (∀ x, P x) → filter P l = l.
Proof.
  intros HP. induction l as [|x l IH]; [done|].
  by rewrite filter_cons, decide_True, IH.
Qed.

Lemma category_matches_string s p b :
  category_matches (QStr s) p = Ok b → b = category_isb s p.
Proof.
  unfold category_matches, category_isb.
  destruct (get p "category"); simpl; try discriminate. by intros [= <-].
Qed.

Lemma name_includes_string s p b :
  name_includes (QStr s) p = Ok b → b = name_containsb s p.
Proof.
  unfold name_includes, name_containsb.
  destruct (get p "name"); simpl; try discriminate. by intros [= <-].
Qed.

Lemma category_matches_other q p :
  (∀ s, q ≠ QStr s) → ∃ e, category_matches q p = Throw e.
Proof.
  intros Hq. unfold category_matches.
  destruct (get p "category"); simpl; eauto.
  destruct q; simpl; eauto. by destruct (Hq s0).
Qed.

Lemma name_includes_other q p :
  (∀ s, q ≠ QStr s) → ∃ e, name_includes q p = Throw e.
Proof.
  intros Hq. unfold name_includes.
  destruct (get p "name"); simpl; eauto.
  destruct q; simpl; eauto. by destruct (Hq s0).
Qed.

(** One filtering step of the handler, when it ends without an exception,
    keeps the records that pass the parameter. *)
Lemma filter_if_given_passes param f test (l r : list obj) :
  (∀ s p b, f (QStr s) p = Ok b → b = test s p) →
  (∀ q p, (∀ s, q ≠ QStr s) → ∃ e, f q p = Throw e) →
  filter_if_given param f l = Ok r →
  r = filter (λ p, passes param test p = true) l.
Proof.
  intros Hstr Hother. unfold filter_if_given.
  destruct param as [[s|els|props]|]; simpl.
  - destruct (String.eqb s "") eqn:Hs; simpl.
    + intros [= <-]. by rewrite filter_all.
    + intros Hr. apply (filter_throwing_agrees _ _ _ _ Hr). eauto.
  - intros Hr. eapply filter_throwing_throws in Hr as [-> ->]; [done|].
    intros p. by apply Hother.
  - intros Hr. eapply filter_throwing_throws in Hr as [-> ->]; [done|].
    intros p. by apply Hother.
  - intros [= <-]. by rewrite filter_all.
Qed.

(** The filtering part, when it ends without an exception, keeps the
    records that satisfy both filters, in catalog order. *)
Lemma filter_products_satisfies (products filtered : list obj) q :
  filter_products products q = Ok filtered →
  filtered = filter (λ p, satisfies q p = true) products.
Proof.
  unfold filter_products, mbind, outcome_bind.
  destruct (filter_if_given (q_category q) category_matches products)
    as [first|] eqn:H1; [|done].
  intros H2.
  apply (filter_if_given_passes _ _ category_isb) in H1;
    [|apply category_matches_string|apply category_matches_other].
  apply (filter_if_given_passes _ _ name_containsb) in H2;
    [|apply name_includes_string|apply name_includes_other].
  rewrite H2, H1, list_filter_filter.
  apply list_filter_iff. intros p. unfold satisfies.
  rewrite andb_true_iff. tauto.
Qed.

Lemma passes_given param test p :
  passes param test p = true → given param = true →
  ∃ s, param = Some (QStr s) ∧ test s p = true.
Proof.
  destruct param as [[s|els|props]|]; simpl; try done.
  destruct (String.eqb s ""); simpl; [done|]. intros Ht _. by exists s.
Qed.

Lemma paginate_subseteq (filtered : list obj) page limit :
  paginate filtered page limit ⊆ filtered.
Proof.
  unfold paginate, JsArray.slice.
  etrans; [apply subseteq_take|apply subseteq_drop].
Qed.

(** C4: when the filters of a request routed to the list handler leave the
    sequence [filtered], the response is 200 with total the length of
    [filtered]; [filtered] holds the catalog records that satisfy both
    filters, so total is their count; and every element of results is a
    catalog record whose category equals the category parameter without
    regard to case, when that parameter is given, and whose name contains
    the search parameter without regard to case, when that one is given. *)
Theorem results_satisfy_filters (products : list obj) uuid req params filtered :
  dispatch req = inr (ListProducts, params) →
  filter_products products (req_query req) = Ok filtered →
  let q := req_query req in
  let results := paginate filtered (page_of q) (limit_of q) in
  handle products uuid req =
    (json 200 (page_result (page_of q) (length filtered) results), products) ∧
  (∀ p, p ∈ results →
     p ∈ products ∧
     (given (q_category q) = true →
        ∃ c, q_category q = Some (QStr c) ∧ category_is c p) ∧
     (given (q_search q) = true →
        ∃ t, q_search q = Some (QStr t) ∧ name_contains t p)) ∧
  filtered = filter (λ p, satisfies q p = true) products ∧
  length filtered = length (filter (λ p, satisfies q p = true) products).
Proof.
  intros Hd Hf q results.
  pose proof (filter_products_satisfies _ _ _ Hf) as Hsat.
  split; [|split; [|split; [done|exact (f_equal length Hsat)]]].
  - rewrite (handle_list _ _ _ _ Hd). unfold list_products. by rewrite Hf.
  - intros p Hp. apply paginate_subseteq in Hp.
    rewrite Hsat in Hp. apply list_elem_of_filter in Hp as [Hp Hin].
    unfold satisfies in Hp. apply andb_true_iff in Hp as [Hc Hs].
    split; [done|]. split; intros Hgiven.
    + destruct (passes_given _ _ _ Hc Hgiven) as (c & ? & ?%category_isb_spec). eauto.
    + destruct (passes_given _ _ _ Hs Hgiven) as (t & ? & ?%name_containsb_spec). eauto.
Qed.

Lemma results_satisfy_filters_witness :
  handle initial_products "" phone_request =
    (json 200 (page_result (Num 1) 1 (take 1 (drop 1 initial_products))),
     initial_products).
Proof.
  apply (results_satisfy_filters initial_products "" phone_request ∅
           (take 1 (drop 1 initial_products))); reflexivity.
Defined.

(** ** Totality of the list handler *)







(** What the repeated category parameter is answered on the initial
    catalog. *)
Lemma repeated_category_response :
  handle initial_products "" repeated_category_request =
    (json 500 (error_body "TypeError" "category.toLowerCase is not a function"),
     initial_products).
Proof. reflexivity. Qed.

(** ** Empty filter parameters *)

Lemma dispatch_with_query req q : dispatch (with_query req q) = dispatch req.
Proof. reflexivity. Qed.

Lemma handle_with_query (products : list obj) uuid req q :
  list_products products q = list_products products (req_query req) →
  handle products uuid (with_query req q) = handle products uuid req.
Proof.
  intros Hl. unfold handle. rewrite dispatch_with_query.
  destruct (dispatch req) as [err|[e params]]; [done|].
  destruct e; simpl; try done. by rewrite Hl.
Qed.

(** C10: a request whose category parameter is the empty string is
    answered as the same request without the category parameter, and a
    request whose search parameter is the empty string as the same request
    without the search parameter: same response, same catalog. *)
Theorem empty_parameter_counts_as_absent (products : list obj) uuid req :
  let q := req_query req in
  (q_category q = Some (QStr "") →
   handle products uuid req =
     handle products uuid
       (with_query req (Query None (q_search q) (q_page q) (q_limit q)))) ∧
  (q_search q = Some (QStr "") →
   handle products uuid req =
     handle products uuid
       (with_query req (Query (q_category q) None (q_page q) (q_limit q)))).
Proof.
  intros q. split; intros Hq; symmetry; apply handle_with_query;
    unfold list_products, filter_products, page_of, limit_of; fold q;
    simpl; by rewrite Hq.
Qed.

Lemma empty_parameter_counts_as_absent_witness :
  handle initial_products "" odd_numbers_request =
    handle initial_products ""
      (with_query odd_numbers_request
         (Query None (Some (QStr "top")) (Some (QStr "x")) (Some (QStr "-3")))).
Proof.
  apply (proj1 (empty_parameter_counts_as_absent initial_products "" odd_numbers_request)).
  reflexivity.
Defined.

(** ** Creating *)

Lemma missing_or_falsy_spec b k : missing_or_falsy b k ↔ truthy (get b k) = false.
Proof.
  unfold missing_or_falsy, get. destruct (b !! k) as [v|]; simpl.
  - split; [by intros [?|(? & [= <-] & ?)]|]. intros H. right. by exists v.
  - split; [done|]. by left.
Qed.

(** The test of the create handler. *)
Lemma create_test_spec b :
  negb (truthy (get b "name")) || negb (truthy (get b "price"))
    || negb (truthy (get b "category")) = true ↔
  missing_or_falsy b "name" ∨ missing_or_falsy b "price" ∨ missing_or_falsy b "category".
Proof.
  rewrite !missing_or_falsy_spec, !orb_true_iff, !negb_true_iff. tauto.
Qed.

(** The create handler on a body that the parser left as an object. *)
Lemma handle_create (products : list obj) uuid req params b :
  dispatch req = inr (CreateProduct, params) →
  req_body req = Parsed b →
  handle products uuid req =
    (match (create_product products uuid b).1 with
     | Ok res => res
     | Throw err => error_handler err
     end, (create_product products uuid b).2).
Proof.
  intros Hd Hb. rewrite (handle_routed _ _ _ _ _ Hd).
  unfold run, body_of. rewrite Hb. by destruct (create_product products uuid b).
Qed.

(** The create handler when the parsers left [req.body] undefined. *)
Lemma handle_create_absent (products : list obj) uuid req params :
  dispatch req = inr (CreateProduct, params) →
  req_body req = Absent →
  handle products uuid req =
    (json 500 (error_body "TypeError"
       "Cannot destructure property 'name' of 'req.body' as it is undefined."),
     products).
Proof.
  intros Hd Hb. rewrite (handle_routed _ _ _ _ _ Hd).
  unfold run. by rewrite Hb.
Qed.

(** A body in which some field is not missing is one the parsers left
    as an object. *)
Lemma present_field_parsed req k :
  ¬ missing_or_falsy (body_of req) k →
  (∀ e, req_body req ≠ Malformed e) →
  req_body req = Parsed (body_of req).
Proof.
  intros Hk Hb. unfold body_of in *.
  destruct (req_body req) as [b| |e]; [done| |by destruct (Hb e)].
  destruct Hk. left. apply lookup_empty.
Qed.



(** ** Updating *)

Lemma spread_absent (old b : obj) k : b !! k = None → spread old b !! k = old !! k.
Proof. intros H. unfold spread. by rewrite lookup_union_r. Qed.

Lemma spread_present (old b : obj) k v : b !! k = Some v → spread old b !! k = Some v.
Proof. intros H. unfold spread. by apply lookup_union_Some_l. Qed.

Lemma findIndex_id (products : list obj) id p :
  p ∈ products → get p "id" = VStr id →
  ∃ index old,
    JsArray.findIndex (id_is (Some id)) products = Some index ∧
    products !! index = Some old ∧ get old "id" = VStr id.
Proof.
  intros Hp Hid.
  destruct (JsArray.findIndex (id_is (Some id)) products) as [index|] eqn:Hi.
  - destruct (proj1 (findIndex_some _ _ _) Hi) as (old & Hold & Hf & _).
    exists index, old. by rewrite <- id_is_spec.
  - rewrite findIndex_none in Hi. specialize (Hi p Hp).
    apply id_is_spec in Hid. congruence.
Qed.

(** C6: a PUT request routed to the update handler with the id of a
    product of the catalog is answered 200 with the merged record, which
    is stored in the place of the first record with that id: a field that
    the payload lacks has the value it had before, a field of the payload
    has the payload's value, and the other records are left as they
    were. *)
Theorem update_merges_payload (products : list obj) uuid req params id p :
  dispatch req = inr (UpdateProduct, params) →
  params !! "id" = Some id →
  p ∈ products → get p "id" = VStr id →
  let b := body_of req in
  ∃ index old merged,
    JsArray.findIndex (id_is (Some id)) products = Some index ∧
    products !! index = Some old ∧ get old "id" = VStr id ∧
    handle products uuid req = (json 200 (VObj merged), <[index := merged]> products) ∧
    (<[index := merged]> products) !! index = Some merged ∧
    (∀ k, b !! k = None → merged !! k = old !! k) ∧
    (∀ k v, b !! k = Some v → merged !! k = Some v) ∧
    (∀ j, j ≠ index → (<[index := merged]> products) !! j = products !! j).
Proof.
  intros Hd Hparam Hp Hid b.
  destruct (findIndex_id _ _ _ Hp Hid) as (index & old & Hi & Hold & Hoid).
  exists index, old, (spread old b).
  split; [done|]. split; [done|]. split; [done|]. split; [|split; [|split; [|split]]].
  - rewrite (handle_routed _ _ _ _ _ Hd). simpl. rewrite Hparam.
    unfold update_product. rewrite Hi, Hold. reflexivity.
  - apply list_lookup_insert_eq. by eapply lookup_lt_Some.
  - intros k. apply spread_absent.
  - intros k v. apply spread_present.
  - intros j Hj. by apply list_lookup_insert_ne.
Qed.

Lemma update_merges_payload_witness :
  ∃ merged : obj,
    (handle initial_products "" reprice_request).1 = json 200 (VObj merged) ∧
    merged !! "price" = Some (VNum (Num 60)) ∧
    merged !! "name" = Some (VStr "Coffee Maker").
Proof.
  destruct (update_merges_payload initial_products "" reprice_request
              {[ "id" := "3" ]} "3" (default ∅ (initial_products !! 2%nat)))
    as (index & old & merged & Hi & Hold & _ & Hh & _ & Habsent & Hpresent & _).
  - reflexivity.
  - by vm_compute.
  - right. right. left.
  - reflexivity.
  - assert (index = 2%nat) as -> by (clear -Hi; vm_compute in Hi; congruence).
    assert (old !! "name" = Some (VStr "Coffee Maker")) as Hname.
    { clear -Hold.
      change (initial_products !! 2%nat)
        with (Some (default ∅ (initial_products !! 2%nat))) in Hold.
      injection Hold as <-. vm_compute. reflexivity. }
    exists merged. split; [by rewrite Hh|]. split.
    + apply Hpresent. reflexivity.
    + rewrite Habsent by reflexivity. exact Hname.
Defined.

(** ** Product ids *)

Lemma findIndex_lookup {A} (f : A → bool) (l : list A) i :
  JsArray.findIndex f l = Some i → ∃ x, l !! i = Some x ∧ f x = true.
Proof. intros (x & ? & ? & _)%findIndex_some. eauto. Qed.

(** The create handler adds the generated id at the end. *)
Lemma ids_create (products : list obj) uuid b :
  ids (create_product products uuid b).2 = ids products ∨
  ids (create_product products uuid b).2 = (ids products ++ [VStr uuid])%list.
Proof.
  unfold create_product. destruct (negb _ || _ || _); simpl; [by left|].
  right. unfold ids. by rewrite fmap_app.
Qed.

Lemma ids_run_create (products : list obj) uuid req params :
  ids (run CreateProduct params products uuid req).2 = ids products ∨
  ids (run CreateProduct params products uuid req).2 = (ids products ++ [VStr uuid])%list.
Proof.
  unfold run. destruct (req_body req); [apply ids_create|by left|apply ids_create].
Qed.

(** The update handler keeps every id when the payload has no [id]. *)
Lemma ids_update (products : list obj) id b :
  b !! "id" = None → ids (update_product products id b).2 = ids products.
Proof.
  intros Hb. unfold update_product.
  destruct (JsArray.findIndex (id_is id) products) as [index|] eqn:Hi; [|done].
  destruct (findIndex_lookup _ _ _ Hi) as (old & Hold & _). simpl.
  unfold ids. rewrite list_fmap_insert, Hold. simpl.
  apply list_insert_id. rewrite list_lookup_fmap, Hold. simpl.
  unfold get. by rewrite spread_absent.
Qed.

(** The delete handler removes one id and keeps the others in order. *)
Lemma ids_delete (products : list obj) id :
  ids (delete_product products id).2 `sublist_of` ids products.
Proof.
  unfold delete_product.
  destruct (JsArray.findIndex (id_is id) products) as [index|]; [|done].
  simpl. unfold ids. rewrite <- delete_take_drop, list_fmap_delete.
  apply sublist_delete.
Qed.

(** A request that is safe for the ids keeps them unique. *)
Lemma handle_keeps_ids_unique (products : list obj) uuid req :
  id_safe products uuid req →
  NoDup (ids products) → NoDup (ids (handle products uuid req).2).
Proof.
  intros [Hbody Hfresh] Hnd.
  destruct (dispatch req) as [err|[e params]] eqn:Hd;
    [by rewrite (handle_error _ _ _ _ Hd)|].
  rewrite (handle_routed _ _ _ _ _ Hd). cbn [snd].
  destruct e; try done.
  - destruct (ids_run_create products uuid req params) as [->| ->]; [done|].
    apply NoDup_app. split; [done|]. split; [|apply NoDup_singleton].
    intros x Hx ->%list_elem_of_singleton. done.
  - cbn [run]. by rewrite ids_update.
  - cbn [run]. eapply sublist_NoDup; [exact Hnd|apply ids_delete].
Qed.

(** So does a sequence of such requests. *)
Lemma handle_all_keeps_ids_unique reqs : ∀ products : list obj,
  all_id_safe products reqs →
  NoDup (ids products) → NoDup (ids (handle_all products reqs)).
Proof.
  induction reqs as [|[uuid req] rest IH]; intros products; simpl; [done|].
  intros [Hsafe Hrest] Hnd. apply IH; [done|].
  by apply handle_keeps_ids_unique.
Qed.

(** C1, the code at the failing input: on the initial catalog, whose ids
    are unique, PUT /api/products/1 with the body {"id":"2"} leaves a
    reachable catalog in which the first record has the id "2" instead of
    "1" and two records share the id "2". *)
Theorem update_overwrites_id :
  let after := (handle initial_products "" overwrite_id_request).2 in
  reachable after ∧
  NoDup (ids initial_products) ∧
  ids initial_products = [VStr "1"; VStr "2"; VStr "3"] ∧
  ids after = [VStr "2"; VStr "2"; VStr "3"] ∧
  ¬ NoDup (ids after).
Proof.
  intros after.
  assert (ids initial_products = [VStr "1"; VStr "2"; VStr "3"]) as Hbefore
    by reflexivity.
  assert (ids after = [VStr "2"; VStr "2"; VStr "3"]) as Hafter by reflexivity.
  split; [apply reachable_handle, reachable_initial|].
  split; [|split; [done|split; [done|]]].
  - rewrite Hbefore.
    repeat (apply NoDup_cons; split;
            [intros Hin; repeat (apply elem_of_cons in Hin as [[=]|Hin]);
             by apply elem_of_nil in Hin|]).
    apply NoDup_nil_2.
  - rewrite Hafter. intros [Hin _]%NoDup_cons. apply Hin. left.
Qed.

(** ** The routing table *)

(** The router in closed form: first match over the registered routes. *)
Lemma find_route_target m path : find_route routes m path = target m path.
Proof.
  unfold target, is_literal.
  destruct path as [|a [|b [|c [|d rest]]]].
  - by destruct m.
  - destruct m; unfold routes; simpl;
      by destruct (String.eqb (JsString.toLowerCase a) "api").
  - destruct m; unfold routes; simpl;
      destruct (String.eqb (JsString.toLowerCase a) "api"); simpl; try done;
      by destruct (String.eqb (JsString.toLowerCase b) "products").
  - destruct m; unfold routes; simpl;
      destruct (String.eqb (JsString.toLowerCase a) "api"); simpl; try done;
      destruct (String.eqb (JsString.toLowerCase b) "products"); simpl; try done;
      destruct (String.eqb_spec c "") as [->|_]; simpl; done.
  - destruct m; unfold routes; simpl;
      destruct (String.eqb (JsString.toLowerCase a) "api"); simpl; try done;
      destruct (String.eqb (JsString.toLowerCase b) "products"); simpl; try done;
      destruct (String.eqb c ""); simpl; try done;
      by destruct (String.eqb (JsString.toLowerCase c) "stats").
Qed.

(** What the chain does with a request that has the key and whose body
    the parsers let through. *)
Lemma dispatch_authorized req :
  (∀ e, req_body req ≠ Malformed e) → req_api_key req = Some "mysecurekey" →
  dispatch req =
    match target (req_method req) (req_path req) with
    | Some t => inr t
    | None => inl (NotFoundError "Route not found")
    end.
Proof.
  intros Hb Hk. unfold dispatch. rewrite Hk, decide_True by done.
  rewrite find_route_target.
  destruct (req_body req) as [b| |e]; [done|done|by destruct (Hb e)].
Qed.

(** A request reaches a handler only with the key and a body that the
    parsers let through, and then the handler is the one the path
    selects. *)
Lemma dispatch_routed req e params :
  dispatch req = inr (e, params) →
  (∀ e, req_body req ≠ Malformed e) ∧ req_api_key req = Some "mysecurekey" ∧
  target (req_method req) (req_path req) = Some (e, params).
Proof.
  unfold dispatch. rewrite find_route_target.
  destruct (req_body req) as [b| |err]; [| |done].
  all: case_decide as Hk; [|done].
  all: destruct (target _ _) as [t|]; [|done].
  all: intros [= ->]; eauto.
Qed.

(** ** Reading, deleting and creating by id *)

Lemma find_findIndex {A} (f : A → bool) (l : list A) :
  JsArray.find f l = JsArray.findIndex f l ≫= (l !!.).
Proof.
  induction l as [|x l IH]; simpl; [done|].
  destruct (f x); [done|]. rewrite IH.
  by destruct (JsArray.findIndex f l).
Qed.

(** [findIndex] by id answers the place of the first record with the
    id. *)
Lemma findIndex_first (products : list obj) id p :
  p ∈ products → get p "id" = VStr id →
  ∃ index q,
    JsArray.findIndex (id_is (Some id)) products = Some index ∧
    first_with_id products id index q.
Proof.
  intros Hp Hid.
  destruct (JsArray.findIndex (id_is (Some id)) products) as [index|] eqn:Hi.
  - destruct (proj1 (findIndex_some _ _ _) Hi) as (q & Hq & Hf & Hfirst).
    exists index, q. split; [done|]. split; [done|].
    split; [by apply id_is_spec|].
    intros j r Hj Hr Hrid. apply id_is_spec in Hrid.
    specialize (Hfirst j r Hj Hr). congruence.
  - rewrite findIndex_none in Hi. specialize (Hi p Hp).
    apply id_is_spec in Hid. congruence.
Qed.

(** With unique ids, the first record with an id is the only one. *)
Lemma first_with_id_unique (products : list obj) id index q p :
  NoDup (ids products) → first_with_id products id index q →
  p ∈ products → get p "id" = VStr id → q = p.
Proof.
  intros Hnd (Hq & Hqid & _) [j Hj]%list_elem_of_lookup Hid.
  assert (index = j) as ->; [|congruence].
  apply (NoDup_lookup _ _ _ (VStr id) Hnd); unfold ids;
    rewrite list_lookup_fmap; [rewrite Hq|rewrite Hj]; simpl; congruence.
Qed.

(** X1: a GET request routed to the by-id handler with the id of a
    product of the catalog is answered 200 with the first record that has
    the id, and the catalog is left as it was; with unique ids that record
    is the product itself. *)
Theorem get_returns_first_match (products : list obj) uuid req params id p :
  dispatch req = inr (GetProduct, params) →
  params !! "id" = Some id →
  p ∈ products → get p "id" = VStr id →
  ∃ index q,
    first_with_id products id index q ∧
    handle products uuid req = (json 200 (VObj q), products) ∧
    (NoDup (ids products) → q = p).
Proof.
  intros Hd Hparam Hp Hid.
  destruct (findIndex_first _ _ _ Hp Hid) as (index & q & Hi & Hfirst).
  exists index, q. split; [done|]. split.
  - rewrite (handle_routed _ _ _ _ _ Hd). simpl. rewrite Hparam.
    unfold get_product. rewrite find_findIndex, Hi. simpl.
    by rewrite (proj1 Hfirst).
  - intros Hnd. by eapply first_with_id_unique.
Qed.

Lemma get_returns_first_match_witness :
  handle initial_products "" (by_id GET "2" ∅) =
    (json 200 (VObj (default ∅ (initial_products !! 1%nat))), initial_products).
Proof.
  destruct (get_returns_first_match initial_products "" (by_id GET "2" ∅)
              {[ "id" := "2" ]} "2" (default ∅ (initial_products !! 1%nat)))
    as (index & q & (Hq & Hqid & Hfirst) & Hh & _).
  - reflexivity.
  - by vm_compute.
  - right. left.
  - reflexivity.
  - rewrite Hh. do 2 f_equal.
    destruct index as [|[|[|index]]]; simpl in Hq; try by injection Hq as <-.
    discriminate.
Defined.

(** The three by-id handlers on an id that no product has. *)
Lemma run_unknown_id (products : list obj) uuid req e params id :
  by_id_endpoint e →
  params !! "id" = Some id →
  (∀ p, p ∈ products → get p "id" ≠ VStr id) →
  run e params products uuid req =
    (Throw (NotFoundError "Product not found"), products).
Proof.
  intros He Hparam Hnone.
  pose proof (no_product_with_id _ _ Hnone) as Hno.
  destruct He as [-> | [-> | ->]]; simpl; rewrite Hparam.
  - unfold get_product. by rewrite (proj2 (find_none _ _) Hno).
  - unfold update_product. by rewrite (proj2 (findIndex_none _ _) Hno).
  - unfold delete_product. by rewrite (proj2 (findIndex_none _ _) Hno).
Qed.

(** X2: a GET or PUT request routed to its by-id handler with an id that
    no product of the catalog has is answered 404, NotFoundError, "Product
    not found", and the catalog is left as it was, whatever the body. *)
Theorem unknown_id_not_found (products : list obj) uuid req e params id :
  dispatch req = inr (e, params) →
  e = GetProduct ∨ e = UpdateProduct →
  params !! "id" = Some id →
  (∀ p, p ∈ products → get p "id" ≠ VStr id) →
  handle products uuid req =
    (json 404 (error_body "NotFoundError" "Product not found"), products).
Proof.
  intros Hd He Hparam Hnone.
  rewrite (handle_routed _ _ _ _ _ Hd).
  rewrite (run_unknown_id _ _ _ _ _ id); [done| |done..].
  unfold by_id_endpoint. tauto.
Qed.

Lemma unknown_id_not_found_witness :
  handle initial_products "" (by_id PUT "9" {[ "price" := VNum (Num 1) ]}) =
    (json 404 (error_body "NotFoundError" "Product not found"), initial_products).
Proof.
  apply (unknown_id_not_found initial_products "" _ UpdateProduct {[ "id" := "9" ]} "9").
  - reflexivity.
  - by right.
  - by vm_compute.
  - intros p Hp.
    repeat (apply elem_of_cons in Hp as [->|Hp]; [by vm_compute|]).
    by apply elem_of_nil in Hp.
Defined.

Lemma find_app_last {A} (f : A → bool) (l : list A) x :
  (∀ y, y ∈ l → f y = false) → f x = true → JsArray.find f (l ++ [x]) = Some x.
Proof.
  intros Hl Hx. induction l as [|y l IH]; simpl; [by rewrite Hx|].
  rewrite (Hl y (list_elem_of_here _ _)). apply IH. intros z Hz. apply Hl. by right.
Qed.

(** X3: a product created with an id that no product of the catalog has
    is what a later GET request for that id is answered, in the catalog the
    creation left. *)
Theorem create_then_get (products : list obj) uuid uuid' req params getreq gparams :
  dispatch req = inr (CreateProduct, params) →
  ¬ (missing_or_falsy (body_of req) "name" ∨ missing_or_falsy (body_of req) "price"
     ∨ missing_or_falsy (body_of req) "category") →
  (∀ p, p ∈ products → get p "id" ≠ VStr uuid) →
  dispatch getreq = inr (GetProduct, gparams) →
  gparams !! "id" = Some uuid →
  ∃ newProduct : obj,
    handle products uuid req =
      (json 201 (VObj newProduct), (products ++ [newProduct])%list) ∧
    handle (products ++ [newProduct])%list uuid' getreq =
      (json 200 (VObj newProduct), (products ++ [newProduct])%list).
Proof.
  intros Hd Hvalid Hfresh Hg Hparam.
  assert (req_body req = Parsed (body_of req)) as Hb.
  { apply (present_field_parsed _ "name"); [tauto|].
    by destruct (dispatch_routed _ _ _ Hd). }
  rewrite (handle_create _ _ _ _ _ Hd Hb). unfold create_product.
  destruct (negb (truthy (get (body_of req) "name")) || _ || _) eqn:Htest.
  { by apply create_test_spec in Htest. }
  simpl. eexists. split; [reflexivity|].
  rewrite (handle_routed _ _ _ _ _ Hg). simpl. rewrite Hparam.
  unfold get_product. rewrite find_app_last; [done| |].
  - by apply no_product_with_id.
  - by apply id_is_spec.
Qed.

Lemma create_then_get_witness :
  ∃ newProduct : obj,
    handle initial_products "0b5d" desk_request =
      (json 201 (VObj newProduct), (initial_products ++ [newProduct])%list) ∧
    handle (initial_products ++ [newProduct])%list "" (by_id GET "0b5d" ∅) =
      (json 200 (VObj newProduct), (initial_products ++ [newProduct])%list).
Proof.
  apply (create_then_get initial_products "0b5d" "" desk_request ∅
           (by_id GET "0b5d" ∅) {[ "id" := "0b5d" ]}).
  - reflexivity.
  - intros [H|[H|H]]; apply missing_or_falsy_spec in H; vm_compute in H; discriminate.
  - intros p Hp.
    repeat (apply elem_of_cons in Hp as [->|Hp]; [by vm_compute|]).
    by apply elem_of_nil in Hp.
  - reflexivity.
  - by vm_compute.
Defined.

Lemma splice1_delete {A} (l : list A) index :
  JsArray.splice1 l index = (take 1 (drop index l), delete index l).
Proof. unfold JsArray.splice1. by rewrite delete_take_drop. Qed.

(** What the delete handler does with the id of a product. *)
Lemma delete_product_first (products : list obj) id index q :
  JsArray.findIndex (id_is (Some id)) products = Some index →
  products !! index = Some q →
  delete_product products (Some id) =
    (Ok (json 200 (VObj {[ "message" := VStr "Product deleted";
                           "product" := VObj q ]})),
     delete index products).
Proof.
  intros Hi Hq. unfold delete_product. rewrite Hi, splice1_delete.
  replace (take 1 (drop index products) !! 0%nat) with (Some q); [done|].
  rewrite lookup_take_lt, lookup_drop by lia. by rewrite Nat.add_0_r.
Qed.

(** X4: a DELETE request routed to the delete handler with the id of a
    product of the catalog is answered 200 with the message "Product
    deleted" and the first record that has the id; exactly that record is
    taken out, the records before it keep their places and those behind it
    move up by one.  With unique ids the record is the product itself. *)
Theorem delete_removes_first_match (products : list obj) uuid req params id p :
  dispatch req = inr (DeleteProduct, params) →
  params !! "id" = Some id →
  p ∈ products → get p "id" = VStr id →
  ∃ index q after,
    first_with_id products id index q ∧
    handle products uuid req =
      (json 200 (VObj {[ "message" := VStr "Product deleted";
                         "product" := VObj q ]}), after) ∧
    S (length after) = length products ∧
    (∀ j, (j < index)%nat → after !! j = products !! j) ∧
    (∀ j, (index ≤ j)%nat → after !! j = products !! S j) ∧
    (NoDup (ids products) → q = p).
Proof.
  intros Hd Hparam Hp Hid.
  destruct (findIndex_first _ _ _ Hp Hid) as (index & q & Hi & Hfirst).
  exists index, q, (delete index products).
  pose proof (proj1 Hfirst) as Hq.
  split; [done|]. split; [|split; [|split; [|split]]].
  - rewrite (handle_routed _ _ _ _ _ Hd). simpl. rewrite Hparam.
    by rewrite (delete_product_first _ _ _ _ Hi Hq).
  - rewrite length_delete by eauto.
    apply lookup_lt_Some in Hq. lia.
  - intros j Hj. by apply list_lookup_delete_lt.
  - intros j Hj. by apply list_lookup_delete_ge.
  - intros Hnd. by eapply first_with_id_unique.
Qed.

Lemma delete_removes_first_match_witness :
  (handle initial_products "" (by_id DELETE "2" ∅)).2 =
    delete 1%nat initial_products.
Proof.
  destruct (delete_removes_first_match initial_products "" (by_id DELETE "2" ∅)
              {[ "id" := "2" ]} "2" (default ∅ (initial_products !! 1%nat)))
    as (index & q & after & _ & Hh & _).
  - reflexivity.
  - by vm_compute.
  - right. left.
  - reflexivity.
  - reflexivity.
Defined.

Lemma not_elem_of_delete {A} (l : list A) i x :
  NoDup l → l !! i = Some x → x ∉ delete i l.
Proof.
  intros Hnd Hi. rewrite delete_take_drop.
  rewrite <- (take_drop_middle l i x Hi) in Hnd.
  apply NoDup_app in Hnd as (_ & Hleft & [Hright _]%NoDup_cons).
  intros [Hin|Hin]%elem_of_app; [|done].
  apply (Hleft x Hin). left.
Qed.

(** X5: with unique ids, once a DELETE request has removed a product, a
    GET, PUT or DELETE request for the same id is answered 404,
    NotFoundError, and changes nothing. *)
Theorem deleted_id_is_gone (products : list obj) uuid uuid' req params id p
    req' e' params' :
  dispatch req = inr (DeleteProduct, params) →
  params !! "id" = Some id →
  p ∈ products → get p "id" = VStr id →
  NoDup (ids products) →
  dispatch req' = inr (e', params') →
  by_id_endpoint e' →
  params' !! "id" = Some id →
  let after := (handle products uuid req).2 in
  handle after uuid' req' =
    (json 404 (error_body "NotFoundError" "Product not found"), after).
Proof.
  intros Hd Hparam Hp Hid Hnd Hd' He' Hparam' after.
  destruct (findIndex_first _ _ _ Hp Hid) as (index & q & Hi & Hq & Hqid & _).
  assert (after = delete index products) as ->.
  { unfold after. rewrite (handle_routed _ _ _ _ _ Hd). simpl. rewrite Hparam.
    by rewrite (delete_product_first _ _ _ _ Hi Hq). }
  rewrite (handle_routed _ _ _ _ _ Hd').
  rewrite (run_unknown_id _ _ _ _ _ id); [done..|].
  intros r Hr Hrid.
  apply (not_elem_of_delete (ids products) index (VStr id)); [done| |].
  - unfold ids. by rewrite list_lookup_fmap, Hq, <- Hqid.
  - unfold ids. rewrite <- list_fmap_delete, <- Hrid.
    by apply (list_elem_of_fmap_2 (λ p, get p "id")).
Qed.

Lemma initial_ids_unique : NoDup (ids initial_products).
Proof.
  repeat (apply NoDup_cons; split;
          [intros Hin; repeat (apply elem_of_cons in Hin as [[=]|Hin]);
           by apply elem_of_nil in Hin|]).
  apply NoDup_nil_2.
Qed.

Lemma deleted_id_is_gone_witness :
  handle (handle initial_products "" (by_id DELETE "1" ∅)).2 "" (by_id GET "1" ∅) =
    (json 404 (error_body "NotFoundError" "Product not found"),
     (handle initial_products "" (by_id DELETE "1" ∅)).2).
Proof.
  apply (deleted_id_is_gone initial_products "" "" (by_id DELETE "1" ∅)
           {[ "id" := "1" ]} "1" (default ∅ (initial_products !! 0%nat))
           (by_id GET "1" ∅) GetProduct {[ "id" := "1" ]}).
  - reflexivity.
  - by vm_compute.
  - left.
  - reflexivity.
  - apply initial_ids_unique.
  - reflexivity.
  - by left.
  - by vm_compute.
Defined.

(** ** Updates in sequence *)

(** What the update handler does with the id of a product. *)
Lemma update_product_first (products : list obj) id index old b :
  JsArray.findIndex (id_is (Some id)) products = Some index →
  products !! index = Some old →
  update_product products (Some id) b =
    (Ok (json 200 (VObj (spread old b))), <[index := spread old b]> products).
Proof. intros Hi Hold. unfold update_product. by rewrite Hi, Hold. Qed.

(** A payload that leaves the id alone: it has no [id], or the id of the
    route. *)
Lemma spread_keeps_id (old b : obj) id :
  get old "id" = VStr id →
  b !! "id" = None ∨ b !! "id" = Some (VStr id) →
  get (spread old b) "id" = VStr id.
Proof.
  intros Hold [Hb|Hb]; unfold get.
  - by rewrite (spread_absent _ _ _ Hb).
  - by rewrite (spread_present _ _ _ _ Hb).
Qed.

(** After such an update the record is still the first with its id. *)
Lemma findIndex_after_update (products : list obj) id index old merged :
  JsArray.findIndex (id_is (Some id)) products = Some index →
  products !! index = Some old →
  get merged "id" = VStr id →
  JsArray.findIndex (id_is (Some id)) (<[index := merged]> products) = Some index.
Proof.
  intros Hi Hold Hid.
  destruct (proj1 (findIndex_some _ _ _) Hi) as (old' & Hold' & _ & Hfirst).
  apply findIndex_some. exists merged. split; [|split].
  - apply list_lookup_insert_eq. by eapply lookup_lt_Some.
  - by apply id_is_spec.
  - intros j r Hj Hr. rewrite list_lookup_insert_ne in Hr by lia. by eapply Hfirst.
Qed.

(** X6: a PUT request on an existing product whose payload leaves the id
    alone is idempotent: sent again to the catalog it left, it is answered
    with the same record and leaves the same catalog. *)
Theorem update_is_idempotent (products : list obj) uuid uuid' req params id p :
  dispatch req = inr (UpdateProduct, params) →
  params !! "id" = Some id →
  p ∈ products → get p "id" = VStr id →
  body_of req !! "id" = None ∨ body_of req !! "id" = Some (VStr id) →
  handle (handle products uuid req).2 uuid' req = handle products uuid req.
Proof.
  intros Hd Hparam Hp Hid Hbody.
  destruct (findIndex_first _ _ _ Hp Hid) as (index & old & Hi & Hold & Hoid & _).
  rewrite !(handle_routed _ _ _ _ _ Hd). simpl. rewrite Hparam.
  rewrite (update_product_first _ _ _ _ _ Hi Hold). simpl.
  pose proof (spread_keeps_id _ _ _ Hoid Hbody) as Hmid.
  rewrite (update_product_first _ id index (spread old (body_of req))).
  - simpl. unfold spread.
    rewrite (assoc_L (∪)), (idemp_L (∪)). by rewrite list_insert_insert_eq.
  - by eapply findIndex_after_update.
  - apply list_lookup_insert_eq. by eapply lookup_lt_Some.
Qed.

Lemma update_is_idempotent_witness :
  handle (handle initial_products "" reprice_request).2 "" reprice_request =
    handle initial_products "" reprice_request.
Proof.
  apply (update_is_idempotent initial_products "" "" reprice_request
           {[ "id" := "3" ]} "3" (default ∅ (initial_products !! 2%nat))).
  - reflexivity.
  - by vm_compute.
  - right. right. left.
  - reflexivity.
  - left. by vm_compute.
Defined.

(** X7: after a PUT request on an existing product whose payload leaves
    the id alone, a GET request for the id is answered with the record the
    PUT request was answered with. *)
Theorem update_then_get (products : list obj) uuid uuid' req params id p getreq gparams :
  dispatch req = inr (UpdateProduct, params) →
  params !! "id" = Some id →
  p ∈ products → get p "id" = VStr id →
  body_of req !! "id" = None ∨ body_of req !! "id" = Some (VStr id) →
  dispatch getreq = inr (GetProduct, gparams) →
  gparams !! "id" = Some id →
  handle (handle products uuid req).2 uuid' getreq =
    ((handle products uuid req).1, (handle products uuid req).2).
Proof.
  intros Hd Hparam Hp Hid Hbody Hg Hgparam.
  destruct (findIndex_first _ _ _ Hp Hid) as (index & old & Hi & Hold & Hoid & _).
  rewrite !(handle_routed _ _ _ _ _ Hd). simpl. rewrite Hparam.
  rewrite (update_product_first _ _ _ _ _ Hi Hold). simpl.
  pose proof (spread_keeps_id _ _ _ Hoid Hbody) as Hmid.
  rewrite (handle_routed _ _ _ _ _ Hg). simpl. rewrite Hgparam.
  unfold get_product. rewrite find_findIndex.
  rewrite (findIndex_after_update _ _ _ _ _ Hi Hold Hmid). simpl.
  rewrite list_lookup_insert_eq by (by eapply lookup_lt_Some). done.
Qed.

Lemma update_then_get_witness :
  handle (handle initial_products "" reprice_request).2 "" (by_id GET "3" ∅) =
    ((handle initial_products "" reprice_request).1,
     (handle initial_products "" reprice_request).2).
Proof.
  apply (update_then_get initial_products "" "" reprice_request
           {[ "id" := "3" ]} "3" (default ∅ (initial_products !! 2%nat))
           (by_id GET "3" ∅) {[ "id" := "3" ]}).
  - reflexivity.
  - by vm_compute.
  - right. right. left.
  - reflexivity.
  - left. by vm_compute.
  - reflexivity.
  - by vm_compute.
Defined.

(** X8: a PUT request on an existing product with an empty payload leaves
    the catalog exactly as it was and is answered 200 with the first record
    that has the id. *)
Theorem update_with_empty_body (products : list obj) uuid req params id p :
  dispatch req = inr (UpdateProduct, params) →
  params !! "id" = Some id →
  p ∈ products → get p "id" = VStr id →
  body_of req = ∅ →
  ∃ index q,
    first_with_id products id index q ∧
    handle products uuid req = (json 200 (VObj q), products).
Proof.
  intros Hd Hparam Hp Hid Hbody.
  destruct (findIndex_first _ _ _ Hp Hid) as (index & q & Hi & Hfirst).
  exists index, q. split; [done|].
  rewrite (handle_routed _ _ _ _ _ Hd). simpl. rewrite Hparam, Hbody.
  rewrite (update_product_first _ _ _ _ _ Hi (proj1 Hfirst)).
  unfold spread. rewrite (left_id_L ∅ (∪)).
  by rewrite (list_insert_id _ _ _ (proj1 Hfirst)).
Qed.

Lemma update_with_empty_body_witness :
  handle initial_products "" (by_id PUT "1" ∅) =
    (json 200 (VObj (default ∅ (initial_products !! 0%nat))), initial_products).
Proof.
  destruct (update_with_empty_body initial_products "" (by_id PUT "1" ∅)
              {[ "id" := "1" ]} "1" (default ∅ (initial_products !! 0%nat)))
    as (index & q & _ & Hh).
  - reflexivity.
  - by vm_compute.
  - left.
  - reflexivity.
  - reflexivity.
  - reflexivity.
Defined.

(** ** The chain as a whole *)

Lemma target_method m path e params :
  target m path = Some (e, params) → routed_as m = method_of e ∧ e ≠ ProductStats.
Proof.
  unfold target. destruct path as [|a [|b [|c [|d rest]]]]; try done;
    repeat case_match; try done; by intros [= <- <-].
Qed.

Lemma dispatch_method req e params :
  dispatch req = inr (e, params) →
  routed_as (req_method req) = method_of e ∧ e ≠ ProductStats.
Proof. intros (_ & _ & Ht)%dispatch_routed. by eapply target_method. Qed.

(** The handlers that write to the catalog run under their own verb
    only. *)
Lemma dispatch_writer req e params :
  dispatch req = inr (e, params) →
  e = CreateProduct ∨ e = UpdateProduct ∨ e = DeleteProduct →
  req_method req = method_of e.
Proof.
  intros [Hm _]%dispatch_method He.
  destruct He as [-> | [-> | ->]]; by destruct (req_method req).
Qed.

(** X13: no request, whatever its method, path, header and body, is
    handed to the stats handler: the by-id route is registered before it
    and takes every path the stats route would take. *)
Theorem no_request_reaches_stats req e params :
  dispatch req = inr (e, params) → e ≠ ProductStats.
Proof. intros Hd. by destruct (dispatch_method _ _ _ Hd). Qed.

Lemma no_request_reaches_stats_witness :
  GetProduct ≠ ProductStats.
Proof.
  apply (no_request_reaches_stats stats_request GetProduct {[ "id" := "stats" ]}).
  reflexivity.
Defined.

(** The exceptions of the filter callbacks are TypeErrors without a
    status code. *)
Lemma value_toLowerCase_thrown expr v e :
  value_toLowerCase expr v = Throw e → err_name e = "TypeError" ∧ err_statusCode e = None.
Proof. destruct v; simpl; try done; by intros [= <-]. Qed.

Lemma qvalue_toLowerCase_thrown expr q e :
  qvalue_toLowerCase expr q = Throw e → err_name e = "TypeError" ∧ err_statusCode e = None.
Proof. destruct q; simpl; try done; by intros [= <-]. Qed.

Lemma category_matches_thrown q p e :
  category_matches q p = Throw e → err_name e = "TypeError" ∧ err_statusCode e = None.
Proof.
  unfold category_matches, mbind, outcome_bind.
  destruct (value_toLowerCase _ _) eqn:Hv.
  - destruct (qvalue_toLowerCase _ _) eqn:Hq; [done|].
    intros [= <-]. by eapply qvalue_toLowerCase_thrown.
  - intros [= <-]. by eapply value_toLowerCase_thrown.
Qed.

Lemma name_includes_thrown q p e :
  name_includes q p = Throw e → err_name e = "TypeError" ∧ err_statusCode e = None.
Proof.
  unfold name_includes, mbind, outcome_bind.
  destruct (value_toLowerCase _ _) eqn:Hv.
  - destruct (qvalue_toLowerCase _ _) eqn:Hq; [done|].
    intros [= <-]. by eapply qvalue_toLowerCase_thrown.
  - intros [= <-]. by eapply value_toLowerCase_thrown.
Qed.

(** An exception of [filter] is an exception of the callback on an
    element. *)
Lemma filter_throwing_thrown {A} (f : A → outcome bool) l e :
  filter_throwing f l = Throw e → ∃ x, x ∈ l ∧ f x = Throw e.
Proof.
  induction l as [|x l IH]; simpl; [done|].
  unfold mbind, outcome_bind. destruct (f x) as [b|e'] eqn:Hx.
  - destruct (filter_throwing f l) as [r|e'] eqn:Hl; [done|].
    intros [= <-]. destruct (IH eq_refl) as (y & Hy & Hfy).
    exists y. split; [by right|done].
  - intros [= <-]. exists x. split; [left|done].
Qed.

Lemma filter_if_given_thrown param f (l : list obj) e :
  filter_if_given param f l = Throw e →
  ∃ q p, param = Some q ∧ given param = true ∧ p ∈ l ∧ f q p = Throw e.
Proof.
  unfold filter_if_given. destruct param as [q|]; [|done].
  destruct (given (Some q)) eqn:Hg; [|done].
  intros (p & Hp & Hf)%filter_throwing_thrown. by exists q, p.
Qed.

Lemma filter_products_thrown (products : list obj) q e :
  filter_products products q = Throw e →
  err_name e = "TypeError" ∧ err_statusCode e = None.
Proof.
  unfold filter_products, mbind, outcome_bind.
  destruct (filter_if_given (q_category q) _ _) as [first|e'] eqn:H1.
  - intros (s & p & _ & _ & _ & Hf)%filter_if_given_thrown.
    by eapply name_includes_thrown.
  - intros [= <-]. apply filter_if_given_thrown in H1 as (c & p & _ & _ & _ & Hf).
    by eapply category_matches_thrown.
Qed.

Lemma error_handler_type_error e :
  err_name e = "TypeError" → err_statusCode e = None →
  is_error (error_handler e) 500 "TypeError".
Proof.
  destruct e as [name message code]. simpl. intros -> ->. by split.
Qed.

(** The list handler answers 200, or 500 with a TypeError. *)
Lemma list_products_status (products : list obj) q :
  (∃ res, list_products products q = Ok res ∧ status res = 200%nat) ∨
  (∃ e, list_products products q = Throw e ∧ is_error (error_handler e) 500 "TypeError").
Proof.
  unfold list_products, mbind, outcome_bind.
  destruct (filter_products products q) as [filtered|e] eqn:Hf.
  - left. eexists. by split.
  - right. exists e. split; [done|].
    destruct (filter_products_thrown _ _ _ Hf). by apply error_handler_type_error.
Qed.

(** X10: the answer of a request that reaches a route handler.  It is
    200; or 201, from the create handler only, under POST; or 400 with a
    ValidationError, from the create handler only; or 404 with a
    NotFoundError, from the three handlers that look a product up by id
    only; or 500 with a TypeError, from the list handler, or from the
    create handler when the parsers left [req.body] undefined, only. *)
Theorem status_codes (products : list obj) uuid req e params :
  dispatch req = inr (e, params) →
  let res := (handle products uuid req).1 in
  status res = 200%nat ∨
  (status res = 201%nat ∧ e = CreateProduct ∧ req_method req = POST) ∨
  (is_error res 400 "ValidationError" ∧ e = CreateProduct) ∨
  (is_error res 404 "NotFoundError" ∧ by_id_endpoint e) ∨
  (is_error res 500 "TypeError" ∧
   (e = ListProducts ∨ (e = CreateProduct ∧ req_body req = Absent))).
Proof.
  intros Hd res. unfold res.
  rewrite (handle_routed _ _ _ _ _ Hd).
  destruct e; cbn [run fst].
  - by left.
  - destruct (list_products_status products (req_query req))
      as [(r & -> & Hr)|(e & -> & He)]; [by left|].
    right. right. right. right. split; [done|]. by left.
  - unfold get_product. destruct (JsArray.find _ _); [by left|].
    right. right. right. left. split; [by split|]. by left.
  - pose proof (dispatch_writer _ _ _ Hd) as Hm.
    destruct (req_body req) as [b| |err] eqn:Hb.
    2: { right. right. right. right. split; [by split|]. by right. }
    all: unfold create_product; destruct (negb _ || _ || _); cbn [fst].
    all: try (right; right; left; split; [by split|done]).
    all: right; left; split; [done|]; split; [done|]; apply Hm; by left.
  - unfold update_product. destruct (JsArray.findIndex _ _); cbn [fst]; [by left|].
    right. right. right. left. split; [by split|]. right. by left.
  - unfold delete_product. destruct (JsArray.findIndex _ _); cbn [fst].
    + left. by rewrite splice1_delete.
    + right. right. right. left. split; [by split|]. right. by right.
  - by left.
Qed.

Lemma status_codes_witness :
  is_error (handle initial_products "" bodiless_post_request).1 500 "TypeError".
Proof.
  destruct (status_codes initial_products "" bodiless_post_request CreateProduct ∅ eq_refl)
    as [H|[[H _]|[[[H _] _]|[[[H _] _]|[H _]]]]]; try (vm_compute in H; discriminate).
  exact H.
Defined.

(** X9: the catalog after a request differs from the catalog before it
    only when a POST request was answered 201, or a PUT or DELETE request
    200: reads, rejected requests and failed requests change nothing. *)
Theorem catalog_changes_only_on_success (products : list obj) uuid req :
  (handle products uuid req).2 ≠ products →
  (req_method req = POST ∧ status (handle products uuid req).1 = 201%nat) ∨
  ((req_method req = PUT ∨ req_method req = DELETE) ∧
   status (handle products uuid req).1 = 200%nat).
Proof.
  destruct (dispatch req) as [err|[e params]] eqn:Hd.
  - by rewrite (handle_error _ _ _ _ Hd).
  - rewrite (handle_routed _ _ _ _ _ Hd).
    pose proof (dispatch_writer _ _ _ Hd) as Hm.
    destruct e; cbn [run fst snd]; try done.
    + rewrite Hm by (by left).
      destruct (req_body req); [|done|]; unfold create_product;
        destruct (negb _ || _ || _); cbn [fst snd]; try done; intros _; by left.
    + rewrite Hm by (right; by left).
      unfold update_product. destruct (JsArray.findIndex _ _); simpl; [|done].
      intros _. right. split; [by left|done].
    + rewrite Hm by (right; by right).
      unfold delete_product. destruct (JsArray.findIndex _ _); simpl; [|done].
      intros _. right. split; [by right|done].
Qed.

Lemma catalog_changes_only_on_success_witness :
  req_method (by_id DELETE "2" ∅) = DELETE ∧
  status (handle initial_products "" (by_id DELETE "2" ∅)).1 = 200%nat.
Proof.
  destruct (catalog_changes_only_on_success initial_products "" (by_id DELETE "2" ∅))
    as [[H _]|[_ H]].
  - intros H. apply (f_equal length) in H. vm_compute in H. discriminate.
  - discriminate.
  - by split.
Defined.

Lemma message_of_error_handler err :
  field_of (error_handler err) "message" = VStr (err_message err).
Proof. reflexivity. Qed.

(** The answers of the handlers are never the answer of the 404 handler. *)
Lemma run_not_route_not_found (products : list obj) uuid req e params :
  e ≠ ProductStats →
  match (run e params products uuid req).1 with
  | Ok res => res
  | Throw err => error_handler err
  end ≠ json 404 (error_body "NotFoundError" "Route not found").
Proof.
  intros He. destruct e; simpl; try done.
  - destruct (list_products_status products (req_query req))
      as [(r & -> & Hr)|(err & -> & [Hs _])]; intros H;
      apply (f_equal status) in H; rewrite ?Hr, ?Hs in H; discriminate.
  - unfold get_product. by destruct (JsArray.find _ _).
  - destruct (req_body req); [|done|]; unfold create_product;
      by destruct (negb _ || _ || _).
  - unfold update_product. by destruct (JsArray.findIndex _ _).
  - unfold delete_product. by destruct (JsArray.findIndex _ _).
Qed.

(** X12: the routing table.  For a request with the API key whose body
    the parsers let through, the handler that runs is the one written out
    in [target]: GET and HEAD / ; GET, HEAD and POST /api/products ; GET,
    HEAD, PUT and DELETE /api/products/:id with a non-empty id, the
    literal segments read as sent and without regard to case.  Every
    other verb and path of the request type, and only those, is answered
    404, NotFoundError, "Route not found", with the catalog left as it
    was.  (The paths of the request type are those whose id segment can
    be decoded; on the others the router passes the decoder's URIError to
    the error handler and runs no handler.) *)
Theorem routing_table (products : list obj) uuid req :
  (∀ err, req_body req ≠ Malformed err) →
  req_api_key req = Some "mysecurekey" →
  (∀ e params,
     dispatch req = inr (e, params) ↔
     target (req_method req) (req_path req) = Some (e, params)) ∧
  ((handle products uuid req).1 = json 404 (error_body "NotFoundError" "Route not found") ↔
   target (req_method req) (req_path req) = None) ∧
  (target (req_method req) (req_path req) = None →
   (handle products uuid req).2 = products).
Proof.
  intros Hb Hk. pose proof (dispatch_authorized _ Hb Hk) as Hd.
  split; [|split].
  - intros e params. rewrite Hd.
    destruct (target _ _) as [t|]; split; congruence.
  - destruct (target _ _) as [[e params]|] eqn:Ht.
    + split; [|done]. rewrite (handle_routed _ _ _ _ _ Hd).
      intros H. cbn [fst] in H. exfalso.
      apply (run_not_route_not_found products uuid req e params); [|done].
      by eapply target_method.
    + by rewrite (handle_error _ _ _ _ Hd).
  - intros Ht. rewrite Ht in Hd. by rewrite (handle_error _ _ _ _ Hd).
Qed.

Lemma routing_table_witness :
  dispatch head_request = inr (GetProduct, {[ "id" := "7" ]}) ∧
  (handle initial_products "" empty_segment_request).1 =
    json 404 (error_body "NotFoundError" "Route not found").
Proof.
  split.
  - apply (routing_table initial_products "" head_request);
      [discriminate|reflexivity|reflexivity].
  - apply (routing_table initial_products "" empty_segment_request);
      [discriminate|reflexivity|reflexivity].
Defined.

(** What a handler does to the length of the catalog. *)
Lemma run_length (products : list obj) uuid req e params :
  let res := match (run e params products uuid req).1 with
             | Ok res => res
             | Throw err => error_handler err
             end in
  let after := (run e params products uuid req).2 in
  (e = CreateProduct ∧ status res = 201%nat ∧ length after = S (length products)) ∨
  (e = DeleteProduct ∧ status res = 200%nat ∧ S (length after) = length products) ∨
  (status res ≠ 201%nat ∧ (e = DeleteProduct → status res ≠ 200%nat) ∧
   length after = length products).
Proof.
  destruct e; cbn [run fst snd].
  - right. right. by repeat split.
  - right. right.
    destruct (list_products_status products (req_query req))
      as [(r & -> & Hr)|(err & -> & [Hs _])]; rewrite ?Hr, ?Hs; by repeat split.
  - right. right. unfold get_product. destruct (JsArray.find _ _); by repeat split.
  - destruct (req_body req); [|right; right; by repeat split|];
      unfold create_product; destruct (negb _ || _ || _); cbn [fst snd].
    all: try (right; right; by repeat split).
    all: left; rewrite length_app; simpl; repeat split; lia.
  - right. right. unfold update_product.
    destruct (JsArray.findIndex _ _); cbn [fst snd]; rewrite ?length_insert;
      by repeat split.
  - unfold delete_product.
    destruct (JsArray.findIndex _ _) as [index|] eqn:Hi;
      [rewrite splice1_delete|]; cbn [fst snd status json].
    + right. left. destruct (findIndex_lookup _ _ _ Hi) as (q & Hq & _).
      rewrite length_delete by eauto. apply lookup_lt_Some in Hq.
      repeat split; lia.
    + right. right. by repeat split.
  - right. right. by repeat split.
Qed.

(** X11: for a request whose body the parser accepted, a POST request
    answered 201 leaves the catalog one record longer, a DELETE request
    answered 200 one record shorter, and every other request leaves as many
    records as it found. *)
Theorem catalog_length (products : list obj) uuid req b :
  req_body req = Parsed b →
  let res := (handle products uuid req).1 in
  let after := (handle products uuid req).2 in
  (status res = 201%nat → length after = S (length products)) ∧
  (req_method req = DELETE → status res = 200%nat → S (length after) = length products) ∧
  (status res ≠ 201%nat → ¬ (req_method req = DELETE ∧ status res = 200%nat) →
   length after = length products).
Proof.
  intros Hb res after. unfold res, after.
  destruct (dispatch req) as [err|[e params]] eqn:Hd.
  - rewrite (handle_error _ _ _ _ Hd). cbn [fst snd].
    assert (status (error_handler err) = 400%nat ∨ status (error_handler err) = 404%nat)
      as Hs.
    { unfold dispatch in Hd. rewrite Hb in Hd.
      case_decide; [destruct (find_route _ _ _); [done|]|]; injection Hd as <-;
        [by right|by left]. }
    destruct Hs as [-> | ->]; repeat split; intros; try done; lia.
  - rewrite (handle_routed _ _ _ _ _ Hd). cbn [fst snd].
    pose proof (dispatch_writer _ _ _ Hd) as Hm.
    assert (req_method req = DELETE → e = DeleteProduct) as Hdel.
    { intros Hdel. destruct (dispatch_method _ _ _ Hd) as [Hr _].
      rewrite Hdel in Hr. by destruct e. }
    destruct (run_length products uuid req e params)
      as [(-> & Hs & Hl)|[(-> & Hs & Hl)|(Hs & Hnd & Hl)]].
    + split; [done|]. split; [|done].
      intros Hmeth. by specialize (Hdel Hmeth).
    + split; [by rewrite Hs|]. split; [done|].
      intros _ Hno. destruct Hno. split; [|done]. apply Hm. right. by right.
    + split; [done|]. split; [|done].
      intros Hmeth H200. destruct (Hnd (Hdel Hmeth) H200).
Qed.

Lemma catalog_length_witness :
  length (handle initial_products "0b5d" desk_request).2 = 4%nat.
Proof.
  apply (catalog_length initial_products "0b5d" desk_request _ eq_refl).
  reflexivity.
Defined.

(** ** Edge cases of the pagination *)

Lemma handle_list_ok (products : list obj) uuid req params filtered :
  dispatch req = inr (ListProducts, params) →
  filter_products products (req_query req) = Ok filtered →
  handle products uuid req =
    (json 200 (page_result (page_of (req_query req)) (length filtered)
                 (paginate filtered (page_of (req_query req)) (limit_of (req_query req)))),
     products).
Proof.
  intros Hd Hf. rewrite (handle_list _ _ _ _ Hd). unfold list_products. by rewrite Hf.
Qed.

(** X15: when the query has neither page nor limit, the list handler
    answers page 1 with the first five records that pass the filters. *)
Theorem default_page_and_limit (products : list obj) uuid req params filtered :
  dispatch req = inr (ListProducts, params) →
  q_page (req_query req) = None →
  q_limit (req_query req) = None →
  filter_products products (req_query req) = Ok filtered →
  handle products uuid req =
    (json 200 (page_result (Num 1) (length filtered) (take 5 filtered)), products).
Proof.
  intros Hd Hp Hl Hf. rewrite (handle_list_ok _ _ _ _ _ Hd Hf).
  assert (page_of (req_query req) = Num 1) as -> by (unfold page_of; by rewrite Hp).
  assert (limit_of (req_query req) = Num 5) as -> by (unfold limit_of; by rewrite Hl).
  by rewrite paginate_small.
Qed.

Lemma default_page_and_limit_witness :
  handle initial_products "" (list_request no_query) =
    (json 200 (page_result (Num 1) 3 initial_products), initial_products).
Proof.
  apply (default_page_and_limit initial_products "" (list_request no_query) ∅
           initial_products); reflexivity.
Defined.






(** What [parseInt] answers, when it is a number, is a double. *)
Lemma parseInt_double s z : JsNumber.parseInt s = Num z → JsNumber.round z = Num z.
Proof.
  unfold JsNumber.parseInt.
  destruct (match JsString.trimStart s with
            | String "-" s' => (true, s')
            | String "+" s' => (false, s')
            | _ => (false, JsString.trimStart s)
            end) as [negative s1].
  destruct (match s1 with
            | String "0" (String "x" s') => (16, s')
            | String "0" (String "X" s') => (16, s')
            | _ => (10, s1)
            end) as [radix s2].
  destruct (JsString.read_digits radix None s2) as [v|]; [|done].
  apply round_idempotent.
Qed.

Lemma slice_backwards {A} (l : list A) start end_ :
  (JsArray.relative_index (length l) end_
     ≤ JsArray.relative_index (length l) start)%nat →
  JsArray.slice l start end_ = [].
Proof.
  intros Hle. unfold JsArray.slice.
  replace (_ - _)%nat with 0%nat by lia. done.
Qed.

Lemma paginate_negative_limit (filtered : list obj) (P L : Z) :
  1 ≤ P → L < 0 → JsNumber.round L = Num L →
  paginate filtered (Num P) (Num L) =
    if decide (P = 1) then take (length filtered - Z.to_nat (- L)) filtered else [].
Proof.
  intros HP HL HLd. unfold paginate. case_decide as H1.
  - subst P. change (JsNumber.sub (Num 1) (Num 1)) with (Num 0).
    unfold JsNumber.mul. rewrite Z.mul_0_l. change (JsNumber.round 0) with (Num 0).
    unfold JsNumber.add. rewrite Z.add_0_l, HLd.
    unfold JsArray.slice, JsArray.relative_index, JsArray.clamp_index.
    rewrite (proj2 (Z.ltb_lt L 0)) by lia.
    change (0 <? 0) with false. cbv iota.
    rewrite Z.min_l by lia. change (Z.to_nat 0) with 0%nat.
    rewrite Nat.sub_0_r, drop_0. f_equal. lia.
  - assert (∀ start, start = Inf true →
              JsArray.slice filtered start (JsNumber.add start (Num L)) = []) as Hinf.
    { by intros ? ->. }
    assert (∀ m, 0 < m →
              JsArray.slice filtered (JsNumber.mul (Num m) (Num L))
                (JsNumber.add (JsNumber.mul (Num m) (Num L)) (Num L)) = []) as Hnum.
    { intros m Hm. unfold JsNumber.mul.
      destruct (round_neg (m * L)) as [Hr|(s' & Hs' & Hr)]; [nia|by apply Hinf|].
      rewrite Hr. unfold JsNumber.add.
      destruct (round_neg_mono (s' + L) s') as [He|(e & He' & He)];
        [lia|lia|by eapply round_idempotent|..]; rewrite He.
      - apply slice_backwards. cbn [JsArray.relative_index]. lia.
      - apply slice_backwards.
        unfold JsArray.relative_index, JsArray.clamp_index.
        rewrite !(proj2 (Z.ltb_lt _ _)) by lia. lia. }
    unfold JsNumber.sub.
    destruct (round_nonneg (P - 1)) as [[_ ->]|[_ [->|(m & Hm & ->)]]]; [lia|..].
    + apply Hnum. lia.
    + apply Hinf. unfold JsNumber.mul.
      rewrite (proj2 (Z.eqb_neq _ _)) by lia.
      by rewrite (proj2 (Z.ltb_lt _ _)) by lia.
    + apply Hnum. lia.
Qed.

(** X17: a negative limit is not rejected.  On page 1 the list handler
    answers all the filtered records but the last |limit| ones, however
    many they are; on a later page it answers none. *)
Theorem negative_limit (products : list obj) uuid req params filtered P L :
  dispatch req = inr (ListProducts, params) →
  filter_products products (req_query req) = Ok filtered →
  page_of (req_query req) = Num P →
  limit_of (req_query req) = Num L →
  1 ≤ P → L < 0 →
  handle products uuid req =
    (json 200 (page_result (Num P) (length filtered)
                 (if decide (P = 1)
                  then take (length filtered - Z.to_nat (- L)) filtered else [])),
     products).
Proof.
  intros Hd Hf HP HL HP1 HL0. rewrite (handle_list_ok _ _ _ _ _ Hd Hf).
  rewrite HP, HL. rewrite paginate_negative_limit; [done..|].
  by apply (parseInt_double _ _ HL).
Qed.

Lemma negative_limit_witness :
  handle initial_products ""
    (list_request (Query None None None (Some (QStr "-1")))) =
    (json 200 (page_result (Num 1) 3 (take 2 initial_products)), initial_products).
Proof.
  apply (negative_limit initial_products ""
           (list_request (Query None None None (Some (QStr "-1")))) ∅
           initial_products 1 (-1)); try reflexivity; lia.
Defined.

(** X23: whatever the page and limit parameters are, the results of the
    list handler are records of the catalog in catalog order, none twice
    over, and there are no more of them than the total, which is no more
    than the catalog holds. *)
Theorem results_in_catalog_order (products : list obj) uuid req params filtered :
  dispatch req = inr (ListProducts, params) →
  filter_products products (req_query req) = Ok filtered →
  ∃ page results,
    handle products uuid req =
      (json 200 (page_result page (length filtered) results), products) ∧
    results `sublist_of` filtered ∧
    filtered `sublist_of` products ∧
    (length results ≤ length filtered ≤ length products)%nat.
Proof.
  intros Hd Hf. eexists _, _. split; [by eapply handle_list_ok|].
  assert (paginate filtered (page_of (req_query req)) (limit_of (req_query req))
            `sublist_of` filtered) as Hs1.
  { unfold paginate, JsArray.slice.
    etrans; [apply sublist_take|apply sublist_drop]. }
  assert (filtered `sublist_of` products) as Hs2.
  { rewrite (filter_products_satisfies _ _ _ Hf). apply sublist_filter. }
  split; [done|]. split; [done|].
  split; by apply sublist_length.
Qed.

Lemma results_in_catalog_order_witness :
  ∃ page results,
    handle initial_products ""
      (list_request (Query None None (Some (QStr "-1")) (Some (QStr "2")))) =
      (json 200 (page_result page 3 results), initial_products) ∧
    results `sublist_of` initial_products.
Proof.
  destruct (results_in_catalog_order initial_products ""
              (list_request (Query None None (Some (QStr "-1")) (Some (QStr "2")))) ∅
              initial_products eq_refl eq_refl)
    as (page & results & Hh & Hs & _).
  by exists page, results.
Defined.

(** X24: the pages 1 to n for one limit parameter, the decimal numeral
    of a positive integer L below 2^1024 - 2^970, put one after the other,
    are the first n * L records of the filtered sequence: paging forward
    meets every record once, in order.  The page and the limit are the
    numbers [parseInt] reads, and the sequence has fewer than 2^32
    records, as every array has. *)
Theorem pages_tile_the_sequence (filtered : list obj) (L : Z) (n : nat) :
  0 < L < 2 ^ 1024 - 2 ^ 970 →
  Z.of_nat (length filtered) < 2 ^ 32 →
  concat ((λ P : nat,
             paginate filtered (JsNumber.parseInt (numeral (Z.of_nat P)))
               (JsNumber.parseInt (numeral L))) <$> seq 1 n) =
    take (n * Z.to_nat L) filtered.
Proof.
  intros HL Hlen. rewrite (parseInt_numeral L) by lia.
  induction n as [|n IH]; [done|].
  rewrite seq_S, fmap_app, concat_app, IH. simpl. rewrite app_nil_r.
  rewrite parseInt_numeral by lia.
  rewrite paginate_rounded by (done || lia).
  replace (Z.to_nat ((Z.of_nat (S n) - 1) * L)) with (n * Z.to_nat L)%nat by nia.
  rewrite take_take_drop. f_equal. lia.
Qed.

Lemma pages_tile_the_sequence_witness :
  concat ((λ P : nat,
             paginate initial_products (JsNumber.parseInt (numeral (Z.of_nat P)))
               (JsNumber.parseInt (numeral 2))) <$> seq 1 2) =
    initial_products.
Proof.
  apply (pages_tile_the_sequence initial_products 2 2).
  - split; [lia|]. by vm_compute.
  - by vm_compute.
Defined.

(** ** Case and types in the filters *)

Lemma toLowerCase_empty s : JsString.toLowerCase s = "" ↔ s = "".
Proof. destruct s; simpl; split; congruence. Qed.

Lemma filter_if_given_ignores_case a b f (l : list obj) :
  (∀ s t p, JsString.toLowerCase s = JsString.toLowerCase t →
            f (QStr s) p = f (QStr t) p) →
  same_ignoring_case a b →
  filter_if_given a f l = filter_if_given b f l.
Proof.
  intros Hf [->|(s & t & -> & -> & Hst)]; [done|].
  unfold filter_if_given, given.
  assert (String.eqb s "" = String.eqb t "") as ->.
  { destruct (String.eqb_spec s "") as [->|Hs], (String.eqb_spec t "") as [->|Ht];
      try done.
    - simpl in Hst. symmetry in Hst. by apply (proj1 (toLowerCase_empty t)) in Hst.
    - simpl in Hst. by apply (proj1 (toLowerCase_empty s)) in Hst. }
  destruct (negb _); [|done].
  induction l as [|p l IH]; simpl; [done|]. by rewrite (Hf s t p Hst), IH.
Qed.

(** X18: the filters read their parameters without regard to case: two
    queries whose category parameters, and whose search parameters, are the
    same or differ in case only, with the same page and limit, are answered
    alike. *)
Theorem filters_ignore_case (products : list obj) uuid req q q' :
  same_ignoring_case (q_category q) (q_category q') →
  same_ignoring_case (q_search q) (q_search q') →
  q_page q = q_page q' →
  q_limit q = q_limit q' →
  handle products uuid (with_query req q) = handle products uuid (with_query req q').
Proof.
  intros Hc Hs Hp Hl.
  assert (list_products products q = list_products products q') as Hlist.
  { unfold list_products, filter_products, page_of, limit_of.
    rewrite Hp, Hl.
    rewrite (filter_if_given_ignores_case _ _ category_matches products) by
      (done || (intros s t p Hst; unfold category_matches; simpl; by rewrite Hst)).
    destruct (filter_if_given (q_category q') category_matches products)
      as [first|e]; simpl; [|done].
    by rewrite (filter_if_given_ignores_case _ _ name_includes first) by
      (done || (intros s t p Hst; unfold name_includes; simpl; by rewrite Hst)). }
  unfold handle. rewrite !dispatch_with_query.
  destruct (dispatch req) as [err|[e params]]; [done|].
  destruct e; simpl; try done. by rewrite Hlist.
Qed.

Lemma filters_ignore_case_witness :
  handle initial_products "" (list_request (Query (Some (QStr "KITCHEN")) None None None)) =
  handle initial_products "" (list_request (Query (Some (QStr "kitchen")) None None None)).
Proof.
  apply (filters_ignore_case initial_products "" (list_request no_query)
           (Query (Some (QStr "KITCHEN")) None None None)
           (Query (Some (QStr "kitchen")) None None None)).
  - right. by exists "KITCHEN", "kitchen".
  - by left.
  - reflexivity.
  - reflexivity.
Defined.

(** A callback that throws on an element ends the visit with an
    exception. *)
Lemma filter_throwing_fails {A} (f : A → outcome bool) l x e :
  x ∈ l → f x = Throw e → ∃ e', filter_throwing f l = Throw e'.
Proof.
  intros Hx Hf. induction l as [|y l IH]; [by apply elem_of_nil in Hx|].
  simpl. unfold mbind, outcome_bind.
  destruct (f y) as [b|e'] eqn:Hy; [|by exists e'].
  apply elem_of_cons in Hx as [->|Hx]; [congruence|].
  destruct (IH Hx) as [e' ->]. by exists e'.
Qed.

Lemma category_matches_throws q p :
  (∃ e, category_matches q p = Throw e) ↔
  ∀ s t, ¬ (q = QStr s ∧ get p "category" = VStr t).
Proof.
  unfold category_matches. split.
  - intros [e He] s t [-> Ht]. rewrite Ht in He. done.
  - intros H. destruct (get p "category") eqn:Hc; simpl; eauto.
    destruct q; simpl; eauto. by destruct (H s0 s).
Qed.

Lemma name_includes_throws q p :
  (∃ e, name_includes q p = Throw e) ↔
  ∀ s t, ¬ (q = QStr s ∧ get p "name" = VStr t).
Proof.
  unfold name_includes. split.
  - intros [e He] s t [-> Ht]. rewrite Ht in He. done.
  - intros H. destruct (get p "name") eqn:Hc; simpl; eauto.
    destruct q; simpl; eauto. by destruct (H s0 s).
Qed.

(** A filter step throws exactly when it meets something other than
    strings. *)
Lemma filter_if_given_throws param f field (l : list obj) :
  (∀ q p, (∃ e, f q p = Throw e) ↔ ∀ s t, ¬ (q = QStr s ∧ get p field = VStr t)) →
  (∃ e, filter_if_given param f l = Throw e) ↔ meets_non_string param field l.
Proof.
  intros Hf. unfold meets_non_string. split.
  - intros [e (q & p & -> & Hg & Hp & He)%filter_if_given_thrown].
    split; [done|]. exists p. split; [done|].
    intros s t [[= ->] Ht]. by apply (proj1 (Hf (QStr s) p) (ex_intro _ e He) s t).
  - intros (Hg & p & Hp & Hbad).
    destruct param as [q|]; [|done]. unfold filter_if_given. rewrite Hg.
    destruct (proj2 (Hf q p)) as [e He].
    { intros s t [-> Ht]. by apply (Hbad s t). }
    by eapply filter_throwing_fails.
Qed.

(** When the list handler throws. *)
Lemma filter_products_throws (products : list obj) q :
  (∃ e, filter_products products q = Throw e) ↔
  meets_non_string (q_category q) "category" products ∨
  meets_non_string (q_search q) "name"
    (filter (λ p, passes (q_category q) category_isb p = true) products).
Proof.
  pose proof (filter_if_given_throws (q_category q) category_matches "category"
                products category_matches_throws) as H1.
  unfold filter_products, mbind, outcome_bind.
  destruct (filter_if_given (q_category q) category_matches products)
    as [first|e] eqn:Hfirst.
  - apply (filter_if_given_passes _ _ category_isb) in Hfirst as <-;
      [|apply category_matches_string|apply category_matches_other].
    rewrite (filter_if_given_throws (q_search q) name_includes "name" first
               name_includes_throws).
    split; [by right|]. intros [Hc|Hs]; [|done].
    apply H1 in Hc as [e He]. done.
  - split; [|by exists e]. intros _. left. apply H1. by exists e.
Qed.



(** ** Records that are not well typed *)

Lemma filter_products_type_error (products : list obj) q uuid req params :
  dispatch req = inr (ListProducts, params) →
  req_query req = q →
  meets_non_string (q_category q) "category" products ∨
  meets_non_string (q_search q) "name"
    (filter (λ p, passes (q_category q) category_isb p = true) products) →
  is_error (handle products uuid req).1 500 "TypeError".
Proof.
  intros Hd <- Hmeets. apply filter_products_throws in Hmeets as [e He].
  rewrite (handle_list _ _ _ _ Hd). cbn [fst].
  unfold list_products, mbind, outcome_bind. rewrite He.
  destruct (filter_products_thrown _ _ _ He). by apply error_handler_type_error.
Qed.

(** X20: the update handler checks no type.  Once a PUT request has
    stored a category that is not a string in an existing product, every
    request to the list handler that gives a category parameter is
    answered 500 with a TypeError. *)
Theorem update_can_break_listing (products : list obj) uuid uuid' req params id p v
    listreq lparams :
  dispatch req = inr (UpdateProduct, params) →
  params !! "id" = Some id →
  p ∈ products → get p "id" = VStr id →
  body_of req !! "category" = Some v →
  (∀ s, v ≠ VStr s) →
  dispatch listreq = inr (ListProducts, lparams) →
  given (q_category (req_query listreq)) = true →
  is_error (handle (handle products uuid req).2 uuid' listreq).1 500 "TypeError".
Proof.
  intros Hd Hparam Hp Hid Hv Hnot Hl Hgiven.
  destruct (findIndex_first _ _ _ Hp Hid) as (index & old & Hi & Hold & _).
  rewrite (handle_routed _ _ _ _ _ Hd). simpl. rewrite Hparam.
  rewrite (update_product_first _ _ _ _ _ Hi Hold). cbn [snd].
  apply (filter_products_type_error _ (req_query listreq) _ _ lparams); [done..|].
  left. split; [done|]. exists (spread old (body_of req)). split.
  - apply list_elem_of_lookup. exists index.
    apply list_lookup_insert_eq. by eapply lookup_lt_Some.
  - intros s t [_ Ht]. unfold get in Ht.
    rewrite (spread_present _ _ _ _ Hv) in Ht. simpl in Ht. by apply (Hnot t).
Qed.

Lemma update_can_break_listing_witness :
  is_error
    (handle (handle initial_products "" (by_id PUT "3" {[ "category" := VNull ]})).2 ""
       (list_request (Query (Some (QStr "kitchen")) None None None))).1
    500 "TypeError".
Proof.
  apply (update_can_break_listing initial_products "" ""
           (by_id PUT "3" {[ "category" := VNull ]}) {[ "id" := "3" ]} "3"
           (default ∅ (initial_products !! 2%nat)) VNull
           (list_request (Query (Some (QStr "kitchen")) None None None)) ∅);
    try reflexivity; try by vm_compute.
  right. right. left.
Defined.

(** X21: the create handler tests the required fields for truthiness
    only.  A POST request whose name is truthy but not a string is
    answered 201, and from then on every request to the list handler that
    gives a search parameter and no category parameter is answered 500
    with a TypeError. *)
Theorem create_can_break_search (products : list obj) uuid uuid' req params v
    listreq lparams :
  dispatch req = inr (CreateProduct, params) →
  body_of req !! "name" = Some v →
  truthy v = true → (∀ s, v ≠ VStr s) →
  truthy (get (body_of req) "price") = true →
  truthy (get (body_of req) "category") = true →
  dispatch listreq = inr (ListProducts, lparams) →
  given (q_category (req_query listreq)) = false →
  given (q_search (req_query listreq)) = true →
  status (handle products uuid req).1 = 201%nat ∧
  is_error (handle (handle products uuid req).2 uuid' listreq).1 500 "TypeError".
Proof.
  intros Hd Hv Htruthy Hnot Hprice Hcat Hl Hnocat Hsearch.
  assert (req_body req = Parsed (body_of req)) as Hb.
  { unfold body_of in *. destruct (req_body req); [done|..];
      by rewrite lookup_empty in Hv. }
  rewrite !(handle_create _ _ _ _ _ Hd Hb). unfold create_product.
  assert (get (body_of req) "name" = v) as Hname by (unfold get; by rewrite Hv).
  rewrite Hname, Htruthy, Hprice, Hcat. simpl. split; [done|].
  apply (filter_products_type_error _ (req_query listreq) _ _ lparams); [done..|].
  right. split; [done|]. eexists. split.
  - apply list_elem_of_filter. split; [|apply elem_of_app; right; left].
    destruct (q_category (req_query listreq)) as [[c|?|?]|]; simpl in *; try done.
    by destruct (String.eqb c "").
  - intros s t [_ Ht]. by apply (Hnot t).
Qed.

Lemma create_can_break_search_witness :
  is_error
    (handle
       (handle initial_products "0b5d"
          (authorized POST ["api"; "products"] no_query
             {[ "name" := VNum (Num 7); "price" := VNum (Num 1);
                "category" := VStr "toys" ]})).2 ""
       (list_request (Query None (Some (QStr "lap")) None None))).1
    500 "TypeError".
Proof.
  apply (create_can_break_search initial_products "0b5d" ""
           (authorized POST ["api"; "products"] no_query
              {[ "name" := VNum (Num 7); "price" := VNum (Num 1);
                 "category" := VStr "toys" ]}) ∅ (VNum (Num 7))
           (list_request (Query None (Some (QStr "lap")) None None)) ∅);
    try reflexivity; try by vm_compute.
Defined.

(** ** The statistics *)

(** The accumulator of the stats handler holds counts: it is the image of
    a map of integers. *)
Lemma count_category_counts (m : gmap string Z) p c :
  get p "category" = VStr c →
  count_category ((λ n, VNum (Num n)) <$> m) p =
    (λ n, VNum (Num n)) <$> <[c := default 0 (m !! c) + 1]> m.
Proof.
  intros Hc. unfold count_category. rewrite Hc. simpl.
  rewrite lookup_fmap, fmap_insert.
  destruct (m !! c) as [n|]; simpl; done.
Qed.

Lemma foldl_count_category (l : list obj) : ∀ m : gmap string Z,
  (∀ p, p ∈ l → ∃ c, get p "category" = VStr c) →
  ∃ m' : gmap string Z,
    foldl count_category ((λ n, VNum (Num n)) <$> m) l = (λ n, VNum (Num n)) <$> m' ∧
    ∀ c, m' !! c =
         if decide (count_of c l = 0%nat) then m !! c
         else Some (default 0 (m !! c) + Z.of_nat (count_of c l)).
Proof.
  induction l as [|p l IH]; intros m Hl.
  - exists m. split; [done|]. intros c. by rewrite decide_True.
  - destruct (Hl p (list_elem_of_here _ _)) as [s Hs]. simpl.
    rewrite (count_category_counts _ _ _ Hs).
    destruct (IH (<[s := default 0 (m !! s) + 1]> m)) as (m' & -> & Hm').
    { intros q Hq. apply Hl. by right. }
    exists m'. split; [done|]. intros c. rewrite Hm'.
    unfold count_of. rewrite filter_cons.
    assert (category_exactly c p = String.eqb s c) as Hce
      by (unfold category_exactly; by rewrite Hs).
    destruct (String.eqb_spec s c) as [->|Hne].
    + rewrite (decide_True (P := category_exactly c p = true)) by done.
      simpl. rewrite lookup_insert_eq. simpl.
      repeat case_decide; try done; f_equal; lia.
    + rewrite (decide_False (P := category_exactly c p = true)) by (by rewrite Hce).
      by rewrite lookup_insert_ne.
Qed.

(** X14: what the stats handler computes, were it reached.  On a catalog
    whose categories are strings other than the names an empty object
    inherits, it answers 200 with an object that has, for every category
    that occurs, the number of records whose category is exactly that
    string, and no other property; categories that differ in case are
    counted apart. *)
Theorem stats_count_exact_categories (products : list obj) :
  (∀ p, p ∈ products →
     ∃ c, get p "category" = VStr c ∧ c ∉ object_prototype_members) →
  ∃ stats : obj,
    product_stats products = Ok (json 200 (VObj stats)) ∧
    ∀ c, stats !! c =
         if decide (count_of c products = 0%nat) then None
         else Some (VNum (Num (Z.of_nat (count_of c products)))).
Proof.
  intros Hcat.
  destruct (foldl_count_category products ∅) as (m' & Hfold & Hm').
  { intros p Hp. destruct (Hcat p Hp) as (c & Hc & _). by exists c. }
  rewrite fmap_empty in Hfold.
  exists ((λ n, VNum (Num n)) <$> m'). split.
  - unfold product_stats. by rewrite Hfold.
  - intros c. rewrite lookup_fmap, Hm', lookup_empty.
    by case_decide.
Qed.

Lemma stats_count_exact_categories_witness :
  product_stats initial_products =
    Ok (json 200 (VObj {[ "electronics" := VNum (Num 2); "kitchen" := VNum (Num 1) ]})).
Proof.
  destruct (stats_count_exact_categories initial_products) as (stats & Hs & _).
  - intros p Hp.
    repeat (apply elem_of_cons in Hp as [->|Hp];
            [eexists; split; [reflexivity|];
             intros Hin; repeat (apply elem_of_cons in Hin as [[=]|Hin]);
             by apply elem_of_nil in Hin|]).
    by apply elem_of_nil in Hp.
  - reflexivity.
Defined.

(** ** The shape of the records *)

Lemma handle_keeps_product_fields (products : list obj) uuid req :
  (∀ p, p ∈ products → has_product_fields p) →
  ∀ p, p ∈ (handle products uuid req).2 → has_product_fields p.
Proof.
  intros Hall.
  destruct (dispatch req) as [err|[e params]] eqn:Hd;
    [by rewrite (handle_error _ _ _ _ Hd)|].
  rewrite (handle_routed _ _ _ _ _ Hd).
  destruct e; cbn [run snd]; try done.
  - destruct (req_body req); [|done|]; unfold create_product;
      destruct (negb _ || _ || _); cbn [snd]; try done.
    all: intros p [Hp|Hp]%elem_of_app; [by apply Hall|].
    all: apply list_elem_of_singleton in Hp as ->.
    all: unfold has_product_fields, product_fields.
    all: rewrite !dom_insert_L, dom_singleton_L; set_solver.
  - unfold update_product.
    destruct (JsArray.findIndex _ _) as [index|] eqn:Hi; simpl; [|done].
    destruct (findIndex_lookup _ _ _ Hi) as (old & Hold & _). rewrite Hold. simpl.
    intros p [j Hj]%list_elem_of_lookup.
    destruct (decide (index = j)) as [->|Hne].
    + rewrite list_lookup_insert_eq in Hj by (by eapply lookup_lt_Some).
      injection Hj as <-. unfold has_product_fields, spread.
      rewrite dom_union_L.
      assert (has_product_fields old) as Hold'
        by (apply Hall, list_elem_of_lookup; eauto).
      intros k Hk. apply elem_of_union. right. by apply Hold'.
    + rewrite list_lookup_insert_ne in Hj by done.
      apply Hall, list_elem_of_lookup. eauto.
  - unfold delete_product.
    destruct (JsArray.findIndex _ _) as [index|]; [|done].
    rewrite splice1_delete. simpl. intros p Hp. apply Hall.
    by eapply list_elem_of_delete_inv.
Qed.

(** X22: every record of every catalog the server can reach has the six
    properties id, name, description, price, category and inStock: the
    initial records have them, the create handler writes them all, the
    update handler only adds or overwrites properties, and the delete
    handler takes whole records away. *)
Theorem reachable_records_keep_fields (products : list obj) :
  reachable products → ∀ p, p ∈ products → has_product_fields p.
Proof.
  induction 1 as [|products uuid req Hreach IH].
  - intros p Hp.
    repeat (apply elem_of_cons in Hp as [->|Hp];
            [unfold has_product_fields, product_fields;
             rewrite !dom_insert_L, dom_singleton_L; set_solver|]).
    by apply elem_of_nil in Hp.
  - by apply handle_keeps_product_fields.
Qed.

Lemma reachable_records_keep_fields_witness :
  has_product_fields (default ∅ (initial_products !! 0%nat)).
Proof.
  apply (reachable_records_keep_fields initial_products reachable_initial).
  left.
Defined.

(** ** Sample evaluations *)

Example parseInt_samples :
  JsNumber.parseInt "2" = Num 2 ∧ JsNumber.parseInt "  -12px" = Num (-12) ∧
  JsNumber.parseInt "0x1F" = Num 31 ∧ JsNumber.parseInt "abc" = NaN ∧
  JsNumber.parseInt "" = NaN ∧ JsNumber.parseInt "1,2" = Num 1 ∧
  JsNumber.parseInt "0x" = NaN ∧ JsNumber.parseInt "08" = Num 8.
Proof. repeat split; reflexivity. Qed.

Example slice_samples :
  JsArray.slice [1;2;3;4;5] (Num 1) (Num 3) = [2;3] ∧
  JsArray.slice [1;2;3;4;5] (Num (-2)) (Num 9) = [4;5] ∧
  JsArray.slice [1;2;3;4;5] NaN NaN = [] ∧
  JsArray.slice [1;2;3;4;5] (Num 7) (Num 9) = [] ∧
  JsArray.slice [1;2;3;4;5] (Num 3) (Num 1) = [].
Proof. repeat split; reflexivity. Qed.

Example string_samples :
  JsString.toLowerCase "Coffee Maker" = "coffee maker" ∧
  JsString.includes "coffee maker" "ee m" = true ∧
  JsString.includes "coffee maker" "" = true ∧
  JsString.includes "coffee" "coffees" = false ∧
  JsNumber.to_string (Num (-12)) = "-12" ∧ JsNumber.to_string (Num 0) = "0".
Proof. repeat split; reflexivity. Qed.

(** GET /api/products?category=electronics&page=1&limit=1 on the initial
    catalog: page 1, total 2, and the laptop as only result. *)
Example electronics_first_page :
  handle initial_products "" electronics_request =
    (json 200 (page_result (Num 1) 2 (take 1 initial_products)), initial_products).
Proof. reflexivity. Qed.

(** DELETE /api/products/1, then GET /api/products/1. *)
Example delete_then_get :
  let deleted := handle initial_products ""
                   (authorized DELETE ["api"; "products"; "1"] no_query ∅) in
  status deleted.1 = 200%nat ∧
  field_of deleted.1 "message" = VStr "Product deleted" ∧
  field_of deleted.1 "product" = VObj (default ∅ (initial_products !! 0%nat)) ∧
  deleted.2 = drop 1 initial_products ∧
  (handle deleted.2 "" (authorized GET ["api"; "products"; "1"] no_query ∅)).1 =
    json 404 (error_body "NotFoundError" "Product not found").
Proof. repeat split; reflexivity. Qed.

(** A route that is not registered, with the key. *)
Example unknown_route :
  handle initial_products "" (authorized PATCH ["api"; "products"; "1"] no_query ∅) =
    (json 404 (error_body "NotFoundError" "Route not found"), initial_products).
Proof. reflexivity. Qed.
